(** * ImGuiScaling: a shallow embedding of the scaling library

    The development follows the two source files:
    - [include/ImGuiScaling/ImGuiScaling.hpp]: [ScaleConfig], the [Scalable]
      mixin and the free [Scale] helper;
    - [src/ImGuiScaling.cpp]: the global user scale, its accessor and mutator,
      the three settings-handler callbacks and [RegisterSettingsHandler].

    C [float] values are IEEE-754 binary32 numbers, modelled with the
    Standard Library's [spec_float] instantiated at precision 24 and
    exponent bound 128.  Comparisons are the IEEE ones ([NaN] is unordered,
    the two zeros are equal).  [spec_float] has one NaN: the sign, quiet bit
    and payload of a binary32 NaN are not represented, so an equation
    between floats is stated only where neither side is a NaN; where a NaN
    may occur the statements use the comparisons. *)

From Stdlib Require Import ZArith Bool List Lia.
From Stdlib Require Import Strings.Ascii Strings.String.
From Stdlib Require Import Floats.SpecFloat.
From Stdlib Require Import Numbers.DecimalString.
Import ListNotations.

Local Open Scope Z_scope.

(* ================================================================= *)
(** ** binary32 arithmetic *)

Module F32.

Definition prec : Z := 24.
Definition emax : Z := 128.

(** A C [float].  Values that the hardware can hold satisfy [is_float32];
    all NaNs are one value. *)
Definition float : Type := spec_float.

Definition is_float32 (x : float) : bool := valid_binary prec emax x.

Definition is_nan (x : float) : bool :=
  match x with
  | S754_nan => true
  | _ => false
  end.

(** A binary32 number: a zero, a finite number or an infinity. *)
Definition is_number (x : float) : bool := is_float32 x && negb (is_nan x).

(** [a > b], [a <= b], [a == b] and [a != b] of C on floats. *)
Definition gt (a b : float) : bool := SFltb b a.
Definition le (a b : float) : bool := SFleb a b.
Definition eq (a b : float) : bool := SFeqb a b.
Definition ne (a b : float) : bool := negb (SFeqb a b).

(** [a * b], rounded to nearest even. *)
Definition mul (a b : float) : float := SFmul prec emax a b.

(** The literals of the source. *)
Definition zero : float := S754_zero false.                  (* 0.0f  *)
Definition one : float := S754_finite false 8388608 (-23).   (* 1.0f  *)
Definition ten : float := S754_finite false 10485760 (-20).  (* 10.0f *)

(** The nearest binary32 number to the integer [n]: how every other decimal
    literal of the examples is obtained. *)
Definition of_Z (n : Z) : float := binary_normalize prec emax n 0 false.

(** The nearest binary32 number to [(-1)^s * n / d], ties to even. *)
Definition of_ratio (s : bool) (n d : positive) : float :=
  let '(q, e, l) := SFdiv_core_binary prec emax (Zpos n) 0 (Zpos d) 0 in
  binary_round_aux prec emax s q e l.

(** The nearest binary32 number to [(-1)^s * m * 2^e]. *)
Definition of_bin (s : bool) (m : positive) (e : Z) : float :=
  binary_round prec emax s m e.

Definition half3 : float := of_ratio false 3 2.    (* 1.5f  *)
Definition quart5 : float := of_ratio false 5 4.   (* 1.25f *)

End F32.

Abbreviation float := F32.float.

(* ================================================================= *)
(** ** ScaleConfig *)

Record ScaleConfig : Type := mkScaleConfig {
  dpiScale : float;
  userScale : float
}.

(** Default member initialisers: [dpiScale = 1.0f], [userScale = 1.0f]. *)
Definition ScaleConfig_default : ScaleConfig :=
  {| dpiScale := F32.one; userScale := F32.one |}.

Definition GetEffectiveScale (c : ScaleConfig) : float :=
  F32.mul (dpiScale c) (userScale c).

Definition FromEffective (effective : float) : ScaleConfig :=
  let config := ScaleConfig_default in
  let config := {| dpiScale := F32.one; userScale := userScale config |} in
  let config := {| dpiScale := dpiScale config; userScale := effective |} in
  config.

Definition Create (dpi user : float) : ScaleConfig :=
  let config := ScaleConfig_default in
  let config := {| dpiScale := dpi; userScale := userScale config |} in
  let config := {| dpiScale := dpiScale config; userScale := user |} in
  config.

(** The free helper [Scale(v, scale)]. *)
Definition Scale (v scale : float) : float := F32.mul v scale.

(* ================================================================= *)
(** ** The Scalable mixin *)

Section ScalableMixin.

(** The part of the object that belongs to the derived widget, and its
    override of the virtual hook.  The hook reads the base through
    [GetScale]; the two scale fields are private to the base, so the hook
    cannot assign them (a hook that re-enters [SetScale] or
    [AcknowledgeScaleChange] is outside this model). *)
Variable Derived : Type.
Variable OnScaleChanged : float -> Derived -> Derived.

Record Scalable : Type := mkScalable {
  m_scale : float;
  m_prevScale : float;
  derived : Derived;
  hook_calls : nat    (* ghost: how many times the hook has run *)
}.

(** Construction: both fields start at [1.0f]. *)
Definition Scalable_new (d : Derived) : Scalable :=
  {| m_scale := F32.one; m_prevScale := F32.one;
     derived := d; hook_calls := 0 |}.

Definition SetScale (scale : float) (w : Scalable) : Scalable :=
  if F32.gt scale F32.zero && F32.ne scale (m_scale w) then
    {| m_prevScale := m_scale w;
       m_scale := scale;
       derived := OnScaleChanged scale (derived w);
       hook_calls := S (hook_calls w) |}
  else w.

Definition GetScale (w : Scalable) : float := m_scale w.

Definition HasScaleChanged (w : Scalable) : bool :=
  F32.ne (m_scale w) (m_prevScale w).

Definition AcknowledgeScaleChange (w : Scalable) : Scalable :=
  {| m_prevScale := m_scale w;
     m_scale := m_scale w;
     derived := derived w;
     hook_calls := hook_calls w |}.

Definition Scaled (value : float) (w : Scalable) : float :=
  F32.mul value (m_scale w).

Definition ScaledTouch (desktopValue touchValue : float) (touchMode : bool)
    (w : Scalable) : float :=
  F32.mul (if touchMode then touchValue else desktopValue) (m_scale w).

(** *** Call sequences *)

Inductive call : Type :=
| CallSetScale (scale : float)
| CallAcknowledge.

Definition do_call (c : call) (w : Scalable) : Scalable :=
  match c with
  | CallSetScale s => SetScale s w
  | CallAcknowledge => AcknowledgeScaleChange w
  end.

Fixpoint run (cs : list call) (w : Scalable) : Scalable :=
  match cs with
  | [] => w
  | c :: cs' => run cs' (do_call c w)
  end.

(** The scale the object had at the most recent acknowledgement in [cs]
    ([a] when there is none): the reference value the specification
    compares against. *)
Fixpoint last_acknowledged (cs : list call) (w : Scalable) (a : float)
    : float :=
  match cs with
  | [] => a
  | CallAcknowledge :: cs' =>
      last_acknowledged cs' (AcknowledgeScaleChange w) (m_scale w)
  | CallSetScale s :: cs' => last_acknowledged cs' (SetScale s w) a
  end.

(** Whether [SetScale scale] takes its branch on [w]. *)
Definition effective (scale : float) (w : Scalable) : bool :=
  F32.gt scale F32.zero && F32.ne scale (m_scale w).

(** Whether an effective [SetScale] happened after the most recent
    acknowledgement in [cs] ([p] when [cs] has neither). *)
Fixpoint change_pending (cs : list call) (w : Scalable) (p : bool) : bool :=
  match cs with
  | [] => p
  | CallAcknowledge :: cs' =>
      change_pending cs' (AcknowledgeScaleChange w) false
  | CallSetScale s :: cs' =>
      change_pending cs' (SetScale s w) (effective s w || p)
  end.

End ScalableMixin.

Arguments m_scale {Derived} _.
Arguments m_prevScale {Derived} _.
Arguments derived {Derived} _.
Arguments hook_calls {Derived} _.
Arguments Scalable_new {Derived} _.
Arguments SetScale {Derived} _ _ _.
Arguments GetScale {Derived} _.
Arguments HasScaleChanged {Derived} _.
Arguments AcknowledgeScaleChange {Derived} _.
Arguments Scaled {Derived} _ _.
Arguments ScaledTouch {Derived} _ _ _ _.
Arguments do_call {Derived} _ _ _.
Arguments run {Derived} _ _ _.
Arguments last_acknowledged {Derived} _ _ _ _.
Arguments effective {Derived} _ _.
Arguments change_pending {Derived} _ _ _ _.

(* ================================================================= *)
(** ** The C library functions the source calls

    Modelled from the spec: [strcmp], [sscanf] and the formatted append are
    called by the source but belong to the C library, not to the
    repository.  The specification's "exact textual pattern" and "formatted
    to 3 decimal places" are made precise here by what the GNU C library
    does for the format ["UserScale=%f"] and for the conversion [%.3f] in
    the "C" locale, on binary32 with rounding to nearest.  That is ISO C
    (7.21.6.1, 7.21.6.2, 7.22.1.3) with two liberties of the library's
    scanner: an exponent letter that no digit follows is read and then
    disregarded, and what stands after the letters [nan] is not read at
    all.  A C string is modelled by the [string] of its characters before
    the terminating NUL. *)

Module LibC.

Definition code (c : ascii) : Z := Z.of_N (N_of_ascii c).

(** [strcmp]: only the sign of the result is specified. *)
Fixpoint strcmp (a b : string) : Z :=
  match a, b with
  | EmptyString, EmptyString => 0
  | EmptyString, String _ _ => -1
  | String _ _, EmptyString => 1
  | String c a', String d b' =>
      if Ascii.eqb c d then strcmp a' b'
      else if code c <? code d then -1 else 1
  end.

Definition isspace (c : ascii) : bool :=
  (code c =? 32) || ((9 <=? code c) && (code c <=? 13)).

Definition isdigit (c : ascii) : bool :=
  (48 <=? code c) && (code c <=? 57).

Definition isxdigit (c : ascii) : bool :=
  isdigit c
  || ((97 <=? code c) && (code c <=? 102))
  || ((65 <=? code c) && (code c <=? 70)).

Definition tolower (c : ascii) : ascii :=
  if (65 <=? code c) && (code c <=? 90)
  then ascii_of_N (N_of_ascii c + 32) else c.

Definition digit_value (c : ascii) : Z := code c - 48.

Definition xdigit_value (c : ascii) : Z :=
  if isdigit c then code c - 48
  else if 97 <=? code c then code c - 87
  else code c - 55.

(** *** Formatted input *)

(** Outcome of a directive. *)
Inductive directive (A : Type) : Type :=
| InputFailure                      (* the input ended *)
| MatchingFailure                   (* the input does not fit *)
| Done (a : A).
Arguments InputFailure {A}.
Arguments MatchingFailure {A}.
Arguments Done {A} _.

(** Ordinary characters of the format: each must be the next input
    character; what is left of the input is returned. *)
Fixpoint match_literal (lit input : string) : directive string :=
  match lit with
  | EmptyString => Done input
  | String c lit' =>
      match input with
      | EmptyString => InputFailure
      | String d input' =>
          if Ascii.eqb c d then match_literal lit' input'
          else MatchingFailure
      end
  end.

Fixpoint skip_space (input : string) : string :=
  match input with
  | String c input' => if isspace c then skip_space input' else input
  | EmptyString => input
  end.

(** Reads decimal digits: the number read so far, how many digits were
    read, and the rest. *)
Fixpoint scan_digits (input : string) (acc n : Z) : Z * Z * string :=
  match input with
  | String c input' =>
      if isdigit c then scan_digits input' (10 * acc + digit_value c) (n + 1)
      else (acc, n, input)
  | EmptyString => (acc, n, input)
  end.

Fixpoint scan_xdigits (input : string) (acc n : Z) : Z * Z * string :=
  match input with
  | String c input' =>
      if isxdigit c
      then scan_xdigits input' (16 * acc + xdigit_value c) (n + 1)
      else (acc, n, input)
  | EmptyString => (acc, n, input)
  end.

(** An optional sign: whether it is a minus, and the rest. *)
Definition scan_sign (input : string) : bool * string :=
  match input with
  | String "-"%char r => (true, r)
  | String "+"%char r => (false, r)
  | _ => (false, input)
  end.

(** The exponent part after its letter: an optional sign and at least one
    digit. *)
Definition scan_exponent (input : string) : option Z :=
  let '(neg, r) := scan_sign input in
  let '(v, n, _) := scan_digits r 0 0 in
  if n =? 0 then None else Some (if neg then - v else v).

(** The binary32 number nearest to [(-1)^s * m * 10^e]. *)
Definition decimal_value (s : bool) (m e : Z) : float :=
  match m with
  | Zpos p =>
      match e with
      | Z0 => F32.of_ratio s p 1
      | Zpos k => F32.of_ratio s (p * Pos.pow 10 k) 1
      | Zneg k => F32.of_ratio s p (Pos.pow 10 k)
      end
  | _ => S754_zero s
  end.

(** The binary32 number nearest to [(-1)^s * m * 2^e]. *)
Definition binary_value (s : bool) (m e : Z) : float :=
  match m with
  | Zpos p => F32.of_bin s p e
  | _ => S754_zero s
  end.

(** The exponent letter of a constant, and its value from the mantissa
    digits [m] read as one integer, the exponent [ex] and the number [nf]
    of digits after the point: a hexadecimal digit after the point counts
    for four binary places. *)
Definition exponent_letter (hex : bool) : ascii :=
  if hex then "p"%char else "e"%char.

Definition constant_value (hex : bool) (s : bool) (m ex nf : Z) : float :=
  if hex then binary_value s m (ex - 4 * nf)
  else decimal_value s m (ex - nf).

(** The mantissa of a floating constant: digits, an optional point, more
    digits.  Returned are the digits read as one integer, how many stand
    before the point and how many after it, whether a point was read, and
    the rest of the input. *)
Definition scan_mantissa (hex : bool) (input : string)
    : Z * Z * Z * bool * string :=
  let scan := if hex then scan_xdigits else scan_digits in
  let '(i, ni, r1) := scan input 0 0 in
  match r1 with
  | String c r =>
      if Ascii.eqb c "."%char
      then let '(m, nf, r2) := scan r i 0 in (m, ni, nf, true, r2)
      else (i, ni, 0, false, r1)
  | EmptyString => (i, ni, 0, false, r1)
  end.

(** The exponent part that may follow the mantissa: the exponent letter, an
    optional sign and digits.  The scanner reads the letter (and a sign)
    also when no digit follows; the conversion then disregards them, and
    the exponent is 0 as when there is no exponent part. *)
Definition scan_exponent_part (letter : ascii) (input : string) : Z :=
  match input with
  | String c r =>
      if Ascii.eqb (tolower c) letter then
        match scan_exponent r with
        | Some ex => ex
        | None => 0
        end
      else 0
  | EmptyString => 0
  end.

(** A floating constant, decimal or (after its [0x]) hexadecimal: a
    mantissa with at least one digit and an optional exponent part.  A
    hexadecimal prefix followed by a lone point converts the [0] of the
    prefix. *)
Definition scan_constant (hex : bool) (s : bool) (input : string)
    : option float :=
  let '(m, ni, nf, point, r2) := scan_mantissa hex input in
  if ni + nf =? 0 then
    if hex && point then Some (S754_zero s) else None
  else
    let ex := scan_exponent_part (exponent_letter hex) r2 in
    Some (constant_value hex s m ex nf).

Definition scan_decimal (s : bool) (input : string) : option float :=
  scan_constant false s input.

Definition scan_hexadecimal (s : bool) (input : string) : option float :=
  scan_constant true s input.

(** How many leading characters of the input agree, letter case apart, with
    [word]. *)
Fixpoint common_prefix (word input : string) : nat :=
  match word, input with
  | String c word', String d input' =>
      if Ascii.eqb c (tolower d) then S (common_prefix word' input') else O
  | _, _ => O
  end.

(** The number at the head of the input (no white space is skipped here):
    an optional sign, then [inf] or [infinity], or [nan], or a hexadecimal
    constant after [0x], or a decimal constant.  After [inf] a further [i]
    must complete [infinity]. *)
Definition scan_unsigned (s : bool) (r : string) : option float :=
  match r with
  | EmptyString => None
  | String c r' =>
      if Ascii.eqb (tolower c) "i"%char then
        match common_prefix "infinity" r with
        | 3%nat | 8%nat => Some (S754_infinity s)
        | _ => None
        end
      else if Ascii.eqb (tolower c) "n"%char then
        match common_prefix "nan" r with
        | 3%nat => Some S754_nan
        | _ => None
        end
      else if Ascii.eqb c "0"%char then
        match r' with
        | String x r'' =>
            if Ascii.eqb (tolower x) "x"%char then scan_hexadecimal s r''
            else scan_decimal s r
        | EmptyString => scan_decimal s r
        end
      else scan_decimal s r
  end.

Definition scan_number (input : string) : option float :=
  let '(s, r) := scan_sign input in
  scan_unsigned s r.

(** The directive [%f]: white space is skipped, then a number is read. *)
Definition scan_float (input : string) : directive float :=
  match skip_space input with
  | EmptyString => InputFailure
  | r =>
      match scan_number r with
      | Some v => Done v
      | None => MatchingFailure
      end
  end.

Definition EOF : Z := -1.

(** *** Formatted output *)

Definition digit_char (d : Z) : ascii := ascii_of_N (Z.to_N (48 + d)).

(** A non-negative integer in decimal. *)
Definition decimal (n : Z) : string :=
  NilZero.string_of_uint (N.to_uint (Z.to_N n)).

(** [m * 2^e * 1000] rounded to an integer, ties to even. *)
Definition thousandths (m : positive) (e : Z) : Z :=
  match e with
  | Zneg k =>
      let d := Z.pow 2 (Zpos k) in
      let q := (Zpos m * 1000) / d in
      let r := (Zpos m * 1000) mod d in
      match 2 * r ?= d with
      | Lt => q
      | Gt => q + 1
      | Eq => if Z.even q then q else q + 1
      end
  | _ => Zpos m * 1000 * Z.pow 2 e
  end.

Definition three_digits (k : Z) : string :=
  String (digit_char (k / 100))
    (String (digit_char ((k / 10) mod 10))
      (String (digit_char (k mod 10)) EmptyString)).

Local Open Scope string_scope.

(** The new-line character. *)
Definition nl : string := String (ascii_of_N 10) EmptyString.

Definition sign_text (s : bool) : string := if s then "-" else "".

(** The conversion [%.3f] of a [float] argument (promoted to [double]
    without change of value). *)
Definition format_f3 (x : float) : string :=
  match x with
  | S754_nan => "nan"
  | S754_infinity s => sign_text s ++ "inf"
  | S754_zero s => sign_text s ++ "0.000"
  | S754_finite s m e =>
      let n := thousandths m e in
      sign_text s ++ decimal (n / 1000) ++ "." ++ three_digits (n mod 1000)
  end.

End LibC.

(* ================================================================= *)
(** ** Global state and settings persistence (ImGuiScaling.cpp) *)

Local Open Scope string_scope.

(** A [void*] is its address; [nullptr] is address 0. *)
Definition void_ptr : Type := Z.
Definition nullptr : void_ptr := 0.

Definition ImGuiID : Type := Z.

(** Modelled from the spec: the toolkit's [ImGuiTextBuffer] is not part of
    the repository; it is the text appended so far, and [append]/[appendf]
    add to its end. *)
Definition ImGuiTextBuffer : Type := string.

Definition append (buf : ImGuiTextBuffer) (text : string) : ImGuiTextBuffer :=
  buf ++ text.

(** The two file-level statics. *)
Record Globals : Type := mkGlobals {
  g_userScale : float;
  g_settingsHandlerRegistered : bool
}.

Definition Globals_init : Globals :=
  {| g_userScale := F32.one; g_settingsHandlerRegistered := false |}.

(** Modelled from the spec: the toolkit's handler record is not part of the
    repository.  It holds the type name, its hash and the three callback
    slots the source fills.  A callback acts on the statics; the context
    argument, which no callback of the source uses, is left out, and the
    handler argument of the write-all callback is passed as the [TypeName]
    it is read for. *)
Record ImGuiSettingsHandler : Type := mkHandler {
  TypeName : string;
  TypeHash : ImGuiID;
  ReadOpenFn : string -> void_ptr;
  ReadLineFn : void_ptr -> string -> Globals -> Globals;
  WriteAllFn : string -> Globals -> ImGuiTextBuffer -> ImGuiTextBuffer
}.

(** Modelled from the spec: the toolkit's context is not part of the
    repository.  It holds the list of registered handlers and whether the
    persisted settings need a save. *)
Record ImGuiContext : Type := mkContext {
  SettingsHandlers : list ImGuiSettingsHandler;
  SettingsDirty : bool
}.

(** Modelled from the spec: [ImGui::MarkIniSettingsDirty] marks the settings
    store of the context as needing a save. *)
Definition MarkIniSettingsDirty (ctx : ImGuiContext) : ImGuiContext :=
  {| SettingsHandlers := SettingsHandlers ctx; SettingsDirty := true |}.

Definition push_back (h : ImGuiSettingsHandler) (ctx : ImGuiContext)
    : ImGuiContext :=
  {| SettingsHandlers := (SettingsHandlers ctx ++ [h])%list;
     SettingsDirty := SettingsDirty ctx |}.

(** The process: the statics of the library and the toolkit's current
    context ([ImGui::GetCurrentContext()], absent when null). *)
Record Process : Type := mkProcess {
  statics : Globals;
  GetCurrentContext : option ImGuiContext
}.

Definition Process_init (ctx : option ImGuiContext) : Process :=
  {| statics := Globals_init; GetCurrentContext := ctx |}.

Definition GetUserScale (p : Process) : float := g_userScale (statics p).

Definition set_userScale (scale : float) (g : Globals) : Globals :=
  {| g_userScale := scale;
     g_settingsHandlerRegistered := g_settingsHandlerRegistered g |}.

Definition SetUserScale (scale : float) (p : Process) : Process :=
  if F32.gt scale F32.zero then
    {| statics := set_userScale scale (statics p);
       GetCurrentContext :=
         match GetCurrentContext p with
         | Some ctx => Some (MarkIniSettingsDirty ctx)
         | None => None
         end |}
  else p.

Definition SettingsHandler_ReadOpen (name : string) : void_ptr :=
  if Z.eqb (LibC.strcmp name "Data") 0 then 1 else nullptr.

(** [sscanf(line, "UserScale=%f", &scale)]: the returned count, and the
    value assigned to [scale] when the conversion was made. *)
Definition sscanf_UserScale (line : string) : Z * option float :=
  match LibC.match_literal "UserScale=" line with
  | LibC.InputFailure => (LibC.EOF, None)
  | LibC.MatchingFailure => (0, None)
  | LibC.Done rest =>
      match LibC.scan_float rest with
      | LibC.InputFailure => (LibC.EOF, None)
      | LibC.MatchingFailure => (0, None)
      | LibC.Done v => (1, Some v)
      end
  end.

Definition SettingsHandler_ReadLine (entry : void_ptr) (line : string)
    (g : Globals) : Globals :=
  if Z.eqb entry nullptr then g
  else
    match sscanf_UserScale line with
    | (1, Some scale) =>
        if F32.gt scale F32.zero && F32.le scale F32.ten
        then set_userScale scale g
        else g
    | _ => g
    end.

Definition SettingsHandler_WriteAll (handler_TypeName : string) (g : Globals)
    (buf : ImGuiTextBuffer) : ImGuiTextBuffer :=
  let buf := append buf ("[" ++ handler_TypeName ++ "][Data]" ++ LibC.nl) in
  let buf :=
    append buf ("UserScale=" ++ LibC.format_f3 (g_userScale g) ++ LibC.nl) in
  append buf LibC.nl.

Section Registration.

(** The toolkit's string hash, which the repository does not define. *)
Variable ImHashStr : string -> ImGuiID.

Definition the_handler : ImGuiSettingsHandler :=
  {| TypeName := "ImGuiScaling";
     TypeHash := ImHashStr "ImGuiScaling";
     ReadOpenFn := SettingsHandler_ReadOpen;
     ReadLineFn := SettingsHandler_ReadLine;
     WriteAllFn := SettingsHandler_WriteAll |}.

Definition RegisterSettingsHandler (p : Process) : Process :=
  if g_settingsHandlerRegistered (statics p) then p
  else
    match GetCurrentContext p with
    | None => p
    | Some ctx =>
        {| statics :=
             {| g_userScale := g_userScale (statics p);
                g_settingsHandlerRegistered := true |};
           GetCurrentContext := Some (push_back the_handler ctx) |}
    end.

(** *** Call sequences on the process *)

Inductive api_call : Type :=
| ApiSetUserScale (scale : float)
| ApiReadLine (entry : void_ptr) (line : string)
| ApiRegister.

Definition api_step (c : api_call) (p : Process) : Process :=
  match c with
  | ApiSetUserScale s => SetUserScale s p
  | ApiReadLine entry line =>
      {| statics := SettingsHandler_ReadLine entry line (statics p);
         GetCurrentContext := GetCurrentContext p |}
  | ApiRegister => RegisterSettingsHandler p
  end.

Fixpoint api_run (cs : list api_call) (p : Process) : Process :=
  match cs with
  | [] => p
  | c :: cs' => api_run cs' (api_step c p)
  end.

End Registration.

(** *** The line pattern in the words of the specification *)

(** What [sscanf] made its conversion from: white space, then the input
    the number was read from. *)
Definition all_space (ws : string) : bool :=
  forallb LibC.isspace (list_ascii_of_string ws).

Definition converted_from (line : string) (v : float) : Prop :=
  exists ws tail,
    line = "UserScale=" ++ ws ++ tail /\ all_space ws = true /\
    LibC.scan_number tail = Some v.

(** **** The text of a floating-point number *)

Definition all_of (p : ascii -> bool) (t : string) : bool :=
  forallb p (list_ascii_of_string t).

Definition starts_with (p : ascii -> bool) (t : string) : bool :=
  match t with
  | String c _ => p c
  | EmptyString => false
  end.

Definition is_point (c : ascii) : bool := Ascii.eqb c "."%char.
Definition is_x (c : ascii) : bool := Ascii.eqb (LibC.tolower c) "x"%char.

(** A sign is [+], [-] or nothing. *)
Definition is_sign (t : string) : bool :=
  String.eqb t "" || String.eqb t "+" || String.eqb t "-".

(** The parts a number is written with. *)
Record number_text : Type := mkNumberText {
  nt_sign : string;       (* [+], [-] or nothing *)
  nt_radix : string;      (* [0x] or [0X] for hexadecimal, nothing for decimal *)
  nt_int : string;        (* the digits before the point *)
  nt_point : bool;        (* whether a point is written *)
  nt_frac : string;       (* the digits after the point *)
  nt_exp : option (ascii * string * string)
                          (* the exponent: its letter, sign and digits *)
}.

Definition nt_hex (n : number_text) : bool := negb (String.eqb (nt_radix n) "").

(** The digits of the mantissa and the exponent letter go with the radix. *)
Definition digit_in (hex : bool) : ascii -> bool :=
  if hex then LibC.isxdigit else LibC.isdigit.

Definition nt_digit (n : number_text) : ascii -> bool := digit_in (nt_hex n).

Definition nt_letter (n : number_text) : ascii :=
  LibC.exponent_letter (nt_hex n).

(** An exponent is written with its letter, an optional sign and at least
    one decimal digit. *)
Definition exponent_ok (letter : ascii)
    (e : option (ascii * string * string)) : bool :=
  match e with
  | Some (c, sg, ds) =>
      Ascii.eqb (LibC.tolower c) letter && is_sign sg
      && all_of LibC.isdigit ds && negb (String.eqb ds "")
  | None => true
  end.

Definition exponent_text (e : option (ascii * string * string)) : string :=
  match e with
  | Some (c, sg, ds) => String c (sg ++ ds)
  | None => ""
  end.

(** The characters of the number, in order: the sign, then the body. *)
Definition body_of (n : number_text) : string :=
  nt_radix n ++ nt_int n
    ++ (if nt_point n then "." ++ nt_frac n else "")
    ++ exponent_text (nt_exp n).

Definition text_of (n : number_text) : string := nt_sign n ++ body_of n.

(** The mantissa is digits with an optional point among them, at least
    one digit; digits after the point need the point. *)
Definition mantissa_ok (hex : bool) (int : string) (point : bool)
    (frac : string) : bool :=
  all_of (digit_in hex) int && all_of (digit_in hex) frac
  && (point || String.eqb frac "")
  && negb (String.eqb (int ++ frac) "").

(** The syntax: an optional sign; for a hexadecimal number the prefix [0x];
    the mantissa; an optional exponent made of the letter [e] (decimal) or
    [p] (hexadecimal), an optional sign and at least one decimal digit. *)
Definition well_formed (n : number_text) : bool :=
  is_sign (nt_sign n)
  && (String.eqb (nt_radix n) "" || String.eqb (nt_radix n) "0x"
      || String.eqb (nt_radix n) "0X")
  && mantissa_ok (nt_hex n) (nt_int n) (nt_point n) (nt_frac n)
  && exponent_ok (nt_letter n) (nt_exp n).

(** The integer a string of digits denotes in the given base, continuing
    from [acc]. *)
Fixpoint numeral (base : Z) (val : ascii -> Z) (t : string) (acc : Z) : Z :=
  match t with
  | String c t' => numeral base val t' (base * acc + val c)
  | EmptyString => acc
  end.

Definition numeral_in (hex : bool) (t : string) (acc : Z) : Z :=
  if hex then numeral 16 LibC.xdigit_value t acc
  else numeral 10 LibC.digit_value t acc.

Definition exponent_value (e : option (ascii * string * string)) : Z :=
  match e with
  | Some (_, sg, ds) =>
      let v := numeral 10 LibC.digit_value ds 0 in
      if String.eqb sg "-" then (- v)%Z else v
  | None => 0%Z
  end.

(** The value: the binary32 number nearest to the number written, the
    digits taken as one integer scaled by the exponent and by the number
    of digits after the point. *)
Definition value_of (n : number_text) : float :=
  let s := String.eqb (nt_sign n) "-" in
  let m := numeral_in (nt_hex n) (nt_int n ++ nt_frac n) 0 in
  let nf := Z.of_nat (String.length (nt_frac n)) in
  LibC.constant_value (nt_hex n) s m (exponent_value (nt_exp n)) nf.

(** Whether [rest] begins with an exponent part: the letter, an optional
    sign and a digit. *)
Definition begins_signed_digits (r : string) : bool :=
  match r with
  | String d r' =>
      if Ascii.eqb d "+"%char || Ascii.eqb d "-"%char
      then starts_with LibC.isdigit r'
      else LibC.isdigit d
  | EmptyString => false
  end.

Definition begins_exponent (letter : ascii) (rest : string) : bool :=
  match rest with
  | String c r => Ascii.eqb (LibC.tolower c) letter && begins_signed_digits r
  | EmptyString => false
  end.

(** The number is taken as far as it extends: what comes after it does not
    continue it.  After an exponent no digit follows.  Without an exponent,
    no digit of the mantissa follows, no point when none is written, and no
    exponent part. *)
Definition ends_constant (hex : bool) (point : bool)
    (e : option (ascii * string * string)) (rest : string) : bool :=
  match e with
  | Some _ => negb (starts_with LibC.isdigit rest)
  | None =>
      negb (starts_with (digit_in hex) rest)
      && (point || negb (starts_with is_point rest))
      && negb (begins_exponent (LibC.exponent_letter hex) rest)
  end.

(** Moreover a lone [0] is not followed by the [x] of a hexadecimal
    prefix. *)
Definition ends_before (n : number_text) (rest : string) : bool :=
  ends_constant (nt_hex n) (nt_point n) (nt_exp n) rest
  && negb (String.eqb (body_of n) "0" && starts_with is_x rest).

(** [tail] begins with a floating-point number of value [v]; the
    characters after the number are free. *)
Definition number_at (tail : string) (v : float) : Prop :=
  exists n rest,
    tail = text_of n ++ rest /\ well_formed n = true /\
    ends_before n rest = true /\ value_of n = v.

(** A line fits when it is [UserScale=] immediately followed by a number;
    [v] is that number. *)
Definition fits_exact_pattern (line : string) (v : float) : Prop :=
  exists tail, line = "UserScale=" ++ tail /\ number_at tail v.

(** What [sscanf] accepts: white space may stand between the [=] and the
    number. *)
Definition fits_scanf_pattern (line : string) (v : float) : Prop :=
  exists ws tail,
    line = "UserScale=" ++ ws ++ tail /\ all_space ws = true /\
    number_at tail v.

Definition in_sanity_range (v : float) : bool :=
  F32.gt v F32.zero && F32.le v F32.ten.

(* ================================================================= *)
(** ** Base size tables (ImGuiScaling.hpp) *)

Module BaseSize.

Definition BUTTON_HEIGHT : float := F32.of_Z 28.
Definition BUTTON_WIDTH : float := F32.of_Z 80.
Definition BUTTON_WIDTH_SMALL : float := F32.of_Z 60.
Definition BUTTON_WIDTH_LARGE : float := F32.of_Z 120.

Definition INPUT_HEIGHT : float := F32.of_Z 26.
Definition ROW_HEIGHT : float := F32.of_Z 24.
Definition ICON_SIZE : float := F32.of_Z 18.
Definition FONT_SIZE : float := F32.of_Z 14.

Definition DIALOG_WIDTH : float := F32.of_Z 400.
Definition DIALOG_HEIGHT : float := F32.of_Z 300.
Definition DIALOG_WIDTH_LARGE : float := F32.of_Z 650.
Definition DIALOG_HEIGHT_LARGE : float := F32.of_Z 450.
Definition DIALOG_MIN_WIDTH : float := F32.of_Z 300.
Definition DIALOG_MIN_HEIGHT : float := F32.of_Z 200.

Definition SPACING : float := F32.of_Z 8.
Definition SPACING_SMALL : float := F32.of_Z 4.
Definition SPACING_LARGE : float := F32.of_Z 16.
Definition PADDING : float := F32.of_Z 8.

Definition SCROLLBAR_WIDTH : float := F32.of_Z 16.
Definition GRAB_MIN_SIZE : float := F32.of_Z 16.

Module Touch.

Definition BUTTON_HEIGHT : float := F32.of_Z 48.
Definition BUTTON_WIDTH : float := F32.of_Z 120.
Definition INPUT_HEIGHT : float := F32.of_Z 48.
Definition ROW_HEIGHT : float := F32.of_Z 52.
Definition ICON_SIZE : float := F32.of_Z 28.
Definition FONT_SIZE : float := F32.of_Z 16.
Definition SCROLLBAR_WIDTH : float := F32.of_Z 40.
Definition GRAB_MIN_SIZE : float := F32.of_Z 40.

End Touch.

(** Every constant of the desktop table. *)
Definition desktop_sizes : list float :=
  [ BUTTON_HEIGHT; BUTTON_WIDTH; BUTTON_WIDTH_SMALL; BUTTON_WIDTH_LARGE;
    INPUT_HEIGHT; ROW_HEIGHT; ICON_SIZE; FONT_SIZE;
    DIALOG_WIDTH; DIALOG_HEIGHT; DIALOG_WIDTH_LARGE; DIALOG_HEIGHT_LARGE;
    DIALOG_MIN_WIDTH; DIALOG_MIN_HEIGHT;
    SPACING; SPACING_SMALL; SPACING_LARGE; PADDING;
    SCROLLBAR_WIDTH; GRAB_MIN_SIZE ].

(** The names the touch table has, each as (desktop value, touch value). *)
Definition touch_overrides : list (float * float) :=
  [ (BUTTON_HEIGHT, Touch.BUTTON_HEIGHT);
    (BUTTON_WIDTH, Touch.BUTTON_WIDTH);
    (INPUT_HEIGHT, Touch.INPUT_HEIGHT);
    (ROW_HEIGHT, Touch.ROW_HEIGHT);
    (ICON_SIZE, Touch.ICON_SIZE);
    (FONT_SIZE, Touch.FONT_SIZE);
    (SCROLLBAR_WIDTH, Touch.SCROLLBAR_WIDTH);
    (GRAB_MIN_SIZE, Touch.GRAB_MIN_SIZE) ].

End BaseSize.

(* ================================================================= *)
(** ** The vector overload of [Scale] *)

(** Modelled from the spec: the toolkit's [ImVec2] is not part of the
    repository; it is a pair of [float] components [x] and [y]. *)
Record ImVec2 : Type := mkImVec2 {
  x : float;
  y : float
}.

(** [Scale(const ImVec2& v, float scale)]. *)
Definition Scale_ImVec2 (v : ImVec2) (scale : float) : ImVec2 :=
  mkImVec2 (F32.mul (x v) scale) (F32.mul (y v) scale).

(* ================================================================= *)
(** ** Auxiliary notions for the properties *)

(** How many [SetScale] calls a sequence has. *)
Fixpoint set_calls (cs : list call) : nat :=
  match cs with
  | [] => O
  | CallSetScale _ :: cs' => S (set_calls cs')
  | CallAcknowledge :: cs' => set_calls cs'
  end.

(** A float has the sign [s]: it is a zero, a finite number or an infinity
    with that sign bit. *)
Definition has_sign (s : bool) (v : float) : bool :=
  match v with
  | S754_zero s' | S754_infinity s' | S754_finite s' _ _ => Bool.eqb s' s
  | S754_nan => false
  end.

(** Equality of representations. *)
Definition same_float (a b : float) : bool :=
  match a, b with
  | S754_zero s, S754_zero s' => Bool.eqb s s'
  | S754_infinity s, S754_infinity s' => Bool.eqb s s'
  | S754_nan, S754_nan => true
  | S754_finite s m e, S754_finite s' m' e' =>
      Bool.eqb s s' && Pos.eqb m m' && Z.eqb e e'
  | _, _ => false
  end.

(** The second line the write-all callback appends. *)
Definition UserScale_line (g : Globals) : string :=
  "UserScale=" ++ LibC.format_f3 (g_userScale g).

(** The binary32 number nearest to [k / 1000]. *)
Definition thousandth (k : Z) : float := F32.of_ratio false (Z.to_pos k) 1000.

(** [sscanf] converts the line written for [k / 1000] to that same float,
    and the float passes the sanity check of the read-line callback. *)
Definition reads_back (k : Z) : bool :=
  let g := {| g_userScale := thousandth k;
              g_settingsHandlerRegistered := false |} in
  match sscanf_UserScale (UserScale_line g) with
  | (1%Z, Some v) => same_float v (thousandth k) && in_sanity_range v
  | _ => false
  end.

Fixpoint reads_back_upto (n : nat) : bool :=
  match n with
  | O => true
  | S m => reads_back (Z.of_nat n) && reads_back_upto m
  end.

(** Whether a sequence has a [SetUserScale] call with a positive scale. *)
Fixpoint sets_positive (cs : list api_call) : bool :=
  match cs with
  | [] => false
  | ApiSetUserScale s :: cs' => F32.gt s F32.zero || sets_positive cs'
  | _ :: cs' => sets_positive cs'
  end.

(** Whether a sequence has no [AcknowledgeScaleChange] call. *)
Fixpoint no_acknowledge (cs : list call) : bool :=
  match cs with
  | [] => true
  | CallSetScale _ :: cs' => no_acknowledge cs'
  | CallAcknowledge :: _ => false
  end.

(** The registration flag tells whether the handler of this library was
    appended to [handlers]. *)
Definition registration_consistent (ImHashStr : string -> ImGuiID)
    (handlers : list ImGuiSettingsHandler) (p : Process) : Prop :=
  exists dirty,
    (g_settingsHandlerRegistered (statics p) = false /\
     GetCurrentContext p = Some (mkContext handlers dirty)) \/
    (g_settingsHandlerRegistered (statics p) = true /\
     GetCurrentContext p
     = Some (mkContext (handlers ++ [the_handler ImHashStr])%list dirty)).

(* ================================================================= *)
(** * Properties *)

Local Open Scope Z_scope.

(** ** Facts about binary32 comparison and rounding *)

Section FloatFacts.

Lemma SFcompare_refl (x : spec_float) :
  x <> S754_nan -> SFcompare x x = Some Eq.
Proof.
  destruct x as [s | s | | s m e]; simpl; intros Hx.
  - reflexivity.
  - destruct s; reflexivity.
  - congruence.
  - rewrite Z.compare_refl, Pos.compare_cont_refl. destruct s; reflexivity.
Qed.

Lemma gt_zero_not_nan (x : float) :
  F32.gt x F32.zero = true -> x <> S754_nan.
Proof. intros H E; subst x; discriminate H. Qed.

Lemma eq_refl_of_not_nan (x : float) : x <> S754_nan -> F32.eq x x = true.
Proof.
  intros Hx. unfold F32.eq, SFeqb. now rewrite SFcompare_refl.
Qed.

Lemma ne_irrefl_of_positive (x : float) :
  F32.gt x F32.zero = true -> F32.ne x x = false.
Proof.
  intros H. unfold F32.ne. fold (F32.eq x x).
  now rewrite eq_refl_of_not_nan by now apply gt_zero_not_nan.
Qed.

(** Shifting right never makes a mantissa negative. *)
Lemma shr_1_nonneg (mrs : shr_record) :
  0 <= shr_m mrs -> 0 <= shr_m (shr_1 mrs).
Proof.
  destruct mrs as [m r s]; simpl.
  destruct m as [| [p | p |] | p]; simpl; lia.
Qed.

Lemma iter_shr_1_nonneg (n : positive) :
  forall mrs, 0 <= shr_m mrs -> 0 <= shr_m (iter_pos shr_1 n mrs).
Proof.
  induction n as [n IH | n IH |]; intros mrs H; simpl.
  - apply IH, IH, shr_1_nonneg, H.
  - apply IH, IH, H.
  - apply shr_1_nonneg, H.
Qed.

Lemma shr_fexp_nonneg (m e : Z) (l : location) :
  0 <= m -> 0 <= shr_m (fst (shr_fexp F32.prec F32.emax m e l)).
Proof.
  intros Hm. unfold shr_fexp, shr.
  assert (H0 : 0 <= shr_m (shr_record_of_loc m l))
    by (destruct l as [| []]; exact Hm).
  destruct (fexp F32.prec F32.emax (Zdigits2 m + e) - e); simpl; trivial.
  now apply iter_shr_1_nonneg.
Qed.

Lemma round_nearest_even_nonneg (m : Z) (l : location) :
  0 <= m -> 0 <= round_nearest_even m l.
Proof.
  intros Hm. destruct l as [| []]; simpl; try lia.
  destruct (Z.even m); lia.
Qed.

Lemma binary_round_aux_not_nan (s : bool) (m e : Z) (l : location) :
  0 <= m -> binary_round_aux F32.prec F32.emax s m e l <> S754_nan.
Proof.
  intros Hm. unfold binary_round_aux.
  pose proof (shr_fexp_nonneg m e l Hm) as H1.
  destruct (shr_fexp F32.prec F32.emax m e l) as [mrs1 e1]. simpl in H1.
  pose proof (shr_fexp_nonneg _ e1 loc_Exact
                (round_nearest_even_nonneg _ (loc_of_shr_record mrs1) H1))
    as H2.
  destruct (shr_fexp F32.prec F32.emax
              (round_nearest_even (shr_m mrs1) (loc_of_shr_record mrs1))
              e1 loc_Exact) as [mrs2 e2].
  simpl in H2.
  destruct (shr_m mrs2) as [| p | p]; try discriminate.
  - destruct (e2 <=? F32.emax - F32.prec); discriminate.
  - lia.
Qed.

(** The product of two positive floats is a number. *)
Lemma mul_positive_not_nan (a b : float) :
  F32.gt a F32.zero = true -> F32.gt b F32.zero = true ->
  F32.mul a b <> S754_nan.
Proof.
  intros Ha Hb.
  destruct a as [sa | sa | | sa ma ea]; try discriminate Ha;
    destruct b as [sb | sb | | sb mb eb]; try discriminate Hb;
    unfold F32.mul; simpl; try discriminate.
  apply binary_round_aux_not_nan. lia.
Qed.

(** Multiplying by [1.0f] is exact. *)
Lemma shr_fexp_scaled (m : positive) (e : Z) :
  bounded F32.prec F32.emax m e = true ->
  shr_fexp F32.prec F32.emax (Zpos (8388608 * m)) (-23 + e) loc_Exact
  = ({| shr_m := Zpos m; shr_r := false; shr_s := false |}, e).
Proof.
  intros Hb. unfold bounded, canonical_mantissa in Hb.
  apply andb_prop in Hb. destruct Hb as [Hc _].
  apply Z.eqb_eq in Hc.
  unfold shr_fexp.
  assert (Hd : Zdigits2 (Zpos (8388608 * m)) + (-23 + e)
               = Zpos (digits2_pos m) + e).
  { cbn [Pos.mul Zdigits2 digits2_pos]. rewrite !Pos2Z.inj_succ. lia. }
  rewrite Hd, Hc.
  replace (e - (-23 + e)) with 23 by lia.
  cbn [Pos.mul shr shr_record_of_loc iter_pos shr_1 orb].
  f_equal. lia.
Qed.

Lemma shr_fexp_canonical (m : positive) (e : Z) :
  bounded F32.prec F32.emax m e = true ->
  shr_fexp F32.prec F32.emax (Zpos m) e loc_Exact
  = ({| shr_m := Zpos m; shr_r := false; shr_s := false |}, e).
Proof.
  intros Hb. unfold bounded, canonical_mantissa in Hb.
  apply andb_prop in Hb. destruct Hb as [Hc _].
  apply Z.eqb_eq in Hc.
  unfold shr_fexp. cbn [Zdigits2]. rewrite Hc, Z.sub_diag. reflexivity.
Qed.

Lemma mul_one_l (x : float) :
  F32.is_float32 x = true -> F32.mul F32.one x = x.
Proof.
  destruct x as [s | s | | s m e]; intros Hv; try reflexivity.
  unfold F32.is_float32, valid_binary in Hv.
  unfold F32.mul, F32.one, SFmul, binary_round_aux.
  rewrite (shr_fexp_scaled m e Hv).
  cbn [shr_m loc_of_shr_record round_nearest_even].
  rewrite (shr_fexp_canonical m e Hv).
  cbn [shr_m xorb].
  unfold bounded in Hv. apply andb_prop in Hv. destruct Hv as [_ He].
  now rewrite He.
Qed.

End FloatFacts.

(* ================================================================= *)
(** ** ScaleConfig *)

(** C9: a default-constructed [ScaleConfig] has both factors [1.0] and
    effective scale [1.0]; for positive [dpi] and [user], [Create] stores
    both fields verbatim and its effective scale compares equal to
    [dpi * user]; for a positive binary32 number [effective],
    [FromEffective] has [dpiScale = 1.0] and its effective scale compares
    equal to [effective]. *)
Theorem ScaleConfig_effective_scale :
  (dpiScale ScaleConfig_default = F32.one /\
   userScale ScaleConfig_default = F32.one /\
   GetEffectiveScale ScaleConfig_default = F32.one) /\
  (forall dpi user : float,
      F32.gt dpi F32.zero = true -> F32.gt user F32.zero = true ->
      dpiScale (Create dpi user) = dpi /\
      userScale (Create dpi user) = user /\
      F32.eq (GetEffectiveScale (Create dpi user)) (F32.mul dpi user) = true) /\
  (forall effective : float,
      F32.is_float32 effective = true ->
      F32.gt effective F32.zero = true ->
      dpiScale (FromEffective effective) = F32.one /\
      userScale (FromEffective effective) = effective /\
      F32.eq (GetEffectiveScale (FromEffective effective)) effective = true).
Proof.
  split; [| split].
  - repeat split; reflexivity.
  - intros dpi user Hd Hu. repeat split.
    unfold GetEffectiveScale, Create; cbn [dpiScale userScale].
    apply eq_refl_of_not_nan, mul_positive_not_nan; assumption.
  - intros effective Hv Hp. repeat split.
    unfold GetEffectiveScale, FromEffective; cbn [dpiScale userScale].
    rewrite mul_one_l by exact Hv.
    apply eq_refl_of_not_nan, gt_zero_not_nan, Hp.
Qed.

Lemma ScaleConfig_effective_scale_witness :
  F32.eq (GetEffectiveScale (Create F32.half3 F32.quart5))
         (F32.mul F32.half3 F32.quart5) = true /\
  F32.eq (GetEffectiveScale (FromEffective F32.quart5)) F32.quart5 = true.
Proof.
  split.
  - apply (proj1 (proj2 ScaleConfig_effective_scale) F32.half3 F32.quart5);
      reflexivity.
  - apply (proj2 (proj2 ScaleConfig_effective_scale) F32.quart5);
      reflexivity.
Defined.

(* ================================================================= *)
(** ** The Scalable mixin *)

Section ScalableFacts.

Variable Derived : Type.
Variable OnScaleChanged : float -> Derived -> Derived.

Let widget := Scalable Derived.

Lemma SetScale_scale_positive (scale : float) (w : widget) :
  F32.gt (m_scale w) F32.zero = true ->
  F32.gt (m_scale (SetScale OnScaleChanged scale w)) F32.zero = true.
Proof.
  intros Hw. unfold SetScale.
  destruct (F32.gt scale F32.zero) eqn:Hs; simpl; trivial.
  destruct (F32.ne scale (m_scale w)); simpl; trivial.
Qed.

Lemma do_call_scale_positive (c : call) (w : widget) :
  F32.gt (m_scale w) F32.zero = true ->
  F32.gt (m_scale (do_call OnScaleChanged c w)) F32.zero = true.
Proof.
  destruct c as [s |]; simpl.
  - apply SetScale_scale_positive.
  - trivial.
Qed.

(** The stored scale of a reachable object is positive. *)
Lemma run_scale_positive (cs : list call) :
  forall w : widget,
    F32.gt (m_scale w) F32.zero = true ->
    F32.gt (m_scale (run OnScaleChanged cs w)) F32.zero = true.
Proof.
  induction cs as [| c cs IH]; intros w Hw; simpl.
  - exact Hw.
  - apply IH, do_call_scale_positive, Hw.
Qed.

Lemma SetScale_effective (scale : float) (w : widget) :
  effective scale w = true ->
  SetScale OnScaleChanged scale w
  = {| m_scale := scale; m_prevScale := m_scale w;
       derived := OnScaleChanged scale (derived w);
       hook_calls := S (hook_calls w) |}.
Proof. unfold effective, SetScale. now intros ->. Qed.

Lemma SetScale_ineffective (scale : float) (w : widget) :
  effective scale w = false -> SetScale OnScaleChanged scale w = w.
Proof. unfold effective, SetScale. now intros ->. Qed.

Lemma HasScaleChanged_after_effective (scale : float) (w : widget) :
  effective scale w = true ->
  HasScaleChanged (SetScale OnScaleChanged scale w) = true.
Proof.
  intros He. rewrite (SetScale_effective _ _ He).
  unfold HasScaleChanged; simpl.
  unfold effective in He. now apply andb_prop in He.
Qed.

Lemma HasScaleChanged_after_acknowledge (w : widget) :
  F32.gt (m_scale w) F32.zero = true ->
  HasScaleChanged (AcknowledgeScaleChange w) = false.
Proof.
  intros Hw. unfold HasScaleChanged; simpl.
  now apply ne_irrefl_of_positive.
Qed.

(** What a sequence of calls keeps true: the flag is raised exactly when
    an effective [SetScale] came after the last acknowledgement, and while
    it is down the scale is the acknowledged one. *)
Lemma run_pending (cs : list call) :
  forall (w : widget) (a : float) (p : bool),
    F32.gt (m_scale w) F32.zero = true ->
    HasScaleChanged w = p ->
    (p = false -> m_scale w = a) ->
    HasScaleChanged (run OnScaleChanged cs w)
    = change_pending OnScaleChanged cs w p /\
    (F32.ne (m_scale (run OnScaleChanged cs w))
            (last_acknowledged OnScaleChanged cs w a) = true ->
     HasScaleChanged (run OnScaleChanged cs w) = true).
Proof.
  induction cs as [| [s |] cs IH]; intros w a p Hw Hp Ha; simpl.
  - split; [exact Hp |].
    intros Hne. destruct p; [congruence |].
    rewrite <- (Ha eq_refl), ne_irrefl_of_positive in Hne by exact Hw.
    discriminate Hne.
  - apply IH.
    + apply SetScale_scale_positive, Hw.
    + destruct (effective s w) eqn:He.
      * now apply HasScaleChanged_after_effective.
      * rewrite SetScale_ineffective by exact He. exact Hp.
    + destruct (effective s w) eqn:He; [discriminate |].
      rewrite SetScale_ineffective by exact He. exact Ha.
  - apply IH.
    + exact Hw.
    + now apply HasScaleChanged_after_acknowledge.
    + reflexivity.
Qed.

End ScalableFacts.

(** C4: [SetScale(newScale)] with [newScale] positive and different from
    the stored scale records the old scale as the previous scale, stores
    [newScale] and runs the hook exactly once; with [newScale] not positive
    or equal to the stored scale it changes nothing and does not run the
    hook; hence a repeated call is idempotent. *)
Theorem SetScale_contract (Derived : Type)
    (OnScaleChanged : float -> Derived -> Derived)
    (newScale : float) (w : Scalable Derived) :
  (F32.gt newScale F32.zero = true /\ F32.ne newScale (m_scale w) = true ->
   m_prevScale (SetScale OnScaleChanged newScale w) = m_scale w /\
   m_scale (SetScale OnScaleChanged newScale w) = newScale /\
   derived (SetScale OnScaleChanged newScale w)
   = OnScaleChanged newScale (derived w) /\
   hook_calls (SetScale OnScaleChanged newScale w) = S (hook_calls w)) /\
  (F32.gt newScale F32.zero = false \/ F32.ne newScale (m_scale w) = false ->
   SetScale OnScaleChanged newScale w = w) /\
  SetScale OnScaleChanged newScale (SetScale OnScaleChanged newScale w)
  = SetScale OnScaleChanged newScale w.
Proof.
  split; [| split].
  - intros [Hp Hn].
    rewrite SetScale_effective by (unfold effective; now rewrite Hp, Hn).
    repeat split.
  - intros H. apply SetScale_ineffective. unfold effective.
    destruct H as [-> | ->]; [reflexivity | apply andb_false_r].
  - destruct (effective newScale w) eqn:He.
    + apply SetScale_ineffective.
      rewrite (SetScale_effective _ _ _ _ He).
      unfold effective in *; cbn [m_scale].
      apply andb_prop in He. destruct He as [Hp _].
      now rewrite ne_irrefl_of_positive, andb_false_r.
    + now rewrite !(SetScale_ineffective _ _ _ _ He).
Qed.

Lemma SetScale_contract_witness :
  m_scale (SetScale (fun _ (n : nat) => S n) F32.half3 (Scalable_new O))
  = F32.half3 /\
  SetScale (fun _ (n : nat) => S n) (F32.of_Z (-1)) (Scalable_new O)
  = Scalable_new O.
Proof.
  pose proof (SetScale_contract nat (fun _ n => S n) F32.half3
                (Scalable_new O)) as [H _].
  pose proof (SetScale_contract nat (fun _ n => S n) (F32.of_Z (-1))
                (Scalable_new O)) as [_ [H' _]].
  split.
  - apply H. split; reflexivity.
  - apply H'. left. reflexivity.
Defined.

(** C7: a fresh [Scalable] is synchronized with scale [1.0]; [SetScale(2.0)]
    makes it pending with scale [2.0]; [AcknowledgeScaleChange] makes it
    synchronized again with the scale still [2.0].  On every reachable
    object an effective [SetScale] leads to the pending state and an
    acknowledgement to the synchronized state, the scale unchanged. *)
Theorem Scalable_state_machine (Derived : Type)
    (OnScaleChanged : float -> Derived -> Derived) (d : Derived) :
  let fresh := Scalable_new d in
  let changed := SetScale OnScaleChanged (F32.of_Z 2) fresh in
  let acknowledged := AcknowledgeScaleChange changed in
  (GetScale fresh = F32.one /\ HasScaleChanged fresh = false) /\
  (GetScale changed = F32.of_Z 2 /\ HasScaleChanged changed = true) /\
  (GetScale acknowledged = F32.of_Z 2 /\
   HasScaleChanged acknowledged = false) /\
  (forall (cs : list call) (scale : float),
      let w := run OnScaleChanged cs fresh in
      HasScaleChanged (AcknowledgeScaleChange w) = false /\
      GetScale (AcknowledgeScaleChange w) = GetScale w /\
      (effective scale w = true ->
       HasScaleChanged (SetScale OnScaleChanged scale w) = true /\
       GetScale (SetScale OnScaleChanged scale w) = scale)).
Proof.
  cbv zeta. repeat split.
  - apply HasScaleChanged_after_acknowledge.
    apply run_scale_positive. reflexivity.
  - now apply HasScaleChanged_after_effective.
  - now rewrite SetScale_effective.
Qed.

Lemma Scalable_state_machine_witness :
  HasScaleChanged
    (SetScale (fun _ (u : unit) => u) F32.half3
       (run (fun _ (u : unit) => u)
            [CallSetScale (F32.of_Z 2); CallAcknowledge] (Scalable_new tt)))
  = true.
Proof.
  pose proof (Scalable_state_machine unit (fun _ u => u) tt) as H.
  cbv zeta in H. destruct H as [_ [_ [_ H]]].
  apply (H [CallSetScale (F32.of_Z 2); CallAcknowledge] F32.half3).
  reflexivity.
Defined.

(** C1, as stated: [HasScaleChanged] would be true exactly when the stored
    scale differs from the scale at the most recent acknowledgement.  It
    fails on a widget with the default hook when the scale is changed to
    [2.0] and back to [1.0] before any acknowledgement. *)
Lemma HasScaleChanged_not_difference_from_acknowledged :
  ~ (forall cs : list call,
        let w := run (fun _ (u : unit) => u) cs (Scalable_new tt) in
        HasScaleChanged w
        = F32.ne (m_scale w)
            (last_acknowledged (fun _ (u : unit) => u) cs
               (Scalable_new tt) F32.one)).
Proof.
  intros H.
  specialize (H [CallSetScale (F32.of_Z 2); CallSetScale F32.one]).
  vm_compute in H. discriminate H.
Qed.

(** C1, amended: after every sequence of [SetScale] and
    [AcknowledgeScaleChange] calls on a fresh object, [HasScaleChanged] is
    true exactly when an effective [SetScale] happened since the most
    recent acknowledgement (or since construction); in particular it is true
    whenever the stored scale differs from the last acknowledged one. *)
Theorem HasScaleChanged_pending (Derived : Type)
    (OnScaleChanged : float -> Derived -> Derived) (d : Derived)
    (cs : list call) :
  let w := run OnScaleChanged cs (Scalable_new d) in
  HasScaleChanged w
  = change_pending OnScaleChanged cs (Scalable_new d) false /\
  (F32.ne (m_scale w)
          (last_acknowledged OnScaleChanged cs (Scalable_new d) F32.one)
   = true ->
   HasScaleChanged w = true).
Proof.
  cbv zeta. apply run_pending; reflexivity.
Qed.

Lemma HasScaleChanged_pending_witness :
  HasScaleChanged
    (run (fun _ (u : unit) => u)
         [CallAcknowledge; CallSetScale (F32.of_Z 2)] (Scalable_new tt))
  = true.
Proof.
  apply (HasScaleChanged_pending unit (fun _ u => u) tt
           [CallAcknowledge; CallSetScale (F32.of_Z 2)]).
  reflexivity.
Defined.

(* ================================================================= *)
(** ** Strings and scanning *)

Section ScanningFacts.

Local Open Scope string_scope.

Lemma strcmp_eq (a : string) : forall b, LibC.strcmp a b = 0 <-> a = b.
Proof.
  induction a as [| c a IH]; intros [| d b]; simpl;
    try (split; intros H; discriminate H); [tauto |].
  destruct (Ascii.eqb c d) eqn:E.
  - apply Ascii.eqb_eq in E. subst d. rewrite IH.
    split; congruence.
  - apply Ascii.eqb_neq in E.
    destruct (LibC.code c <? LibC.code d)%Z;
      (split; intros H; [discriminate H | congruence]).
Qed.

Lemma match_literal_Done (lit : string) :
  forall input rest,
    LibC.match_literal lit input = LibC.Done rest <-> input = lit ++ rest.
Proof.
  induction lit as [| c lit IH]; intros input rest; simpl.
  - split; congruence.
  - destruct input as [| d input]; [split; discriminate |].
    destruct (Ascii.eqb c d) eqn:E.
    + apply Ascii.eqb_eq in E. subst d. rewrite IH. split; congruence.
    + apply Ascii.eqb_neq in E. split; [discriminate | congruence].
Qed.

Lemma skip_space_split (input : string) :
  exists ws, input = ws ++ LibC.skip_space input /\ all_space ws = true.
Proof.
  induction input as [| c input [ws [E H]]]; simpl.
  - exists "". split; reflexivity.
  - destruct (LibC.isspace c) eqn:Hc.
    + exists (String c ws). split.
      * simpl. now rewrite <- E.
      * unfold all_space in *. simpl. now rewrite Hc.
    + exists "". split; reflexivity.
Qed.

Lemma skip_space_app (ws : string) :
  forall tail, all_space ws = true ->
    LibC.skip_space (ws ++ tail) = LibC.skip_space tail.
Proof.
  induction ws as [| c ws IH]; intros tail H; simpl.
  - reflexivity.
  - unfold all_space in H. simpl in H. apply andb_prop in H.
    destruct H as [Hc H]. rewrite Hc. now apply IH.
Qed.

(** A number does not begin with white space. *)
Lemma scan_number_no_space (tail : string) (v : float) :
  LibC.scan_number tail = Some v ->
  LibC.skip_space tail = tail /\ tail <> "".
Proof.
  destruct tail as [| c r]; [discriminate |].
  intros H. split; [| discriminate].
  simpl. destruct (LibC.isspace c) eqn:Hs; [| reflexivity].
  exfalso.
  destruct c as [b0 b1 b2 b3 b4 b5 b6 b7].
  destruct b0, b1, b2, b3, b4, b5, b6, b7;
    try (vm_compute in Hs; discriminate Hs);
    vm_compute in H; discriminate H.
Qed.

(** [sscanf] makes its one conversion exactly on the lines of the form
    [UserScale=], white space, number, anything. *)
Lemma sscanf_UserScale_converts (line : string) (v : float) :
  sscanf_UserScale line = (1, Some v) <-> converted_from line v.
Proof.
  unfold sscanf_UserScale, converted_from. split.
  - destruct (LibC.match_literal "UserScale=" line) as [| | rest] eqn:Hl;
      try discriminate.
    apply match_literal_Done in Hl.
    unfold LibC.scan_float.
    destruct (skip_space_split rest) as [ws [E Hws]].
    destruct (LibC.skip_space rest) as [| c r] eqn:Hr; [discriminate |].
    destruct (LibC.scan_number (String c r)) as [x |] eqn:Hn;
      [| discriminate].
    intros H. injection H as ->.
    exists ws, (String c r). subst line. rewrite <- E. auto.
  - intros [ws [tail [E [Hws Hn]]]].
    assert (Hl : LibC.match_literal "UserScale=" line = LibC.Done (ws ++ tail))
      by now apply match_literal_Done.
    rewrite Hl. unfold LibC.scan_float.
    destruct (scan_number_no_space _ _ Hn) as [Hs Hne].
    rewrite skip_space_app, Hs by exact Hws.
    destruct tail as [| c r]; [congruence |].
    now rewrite Hn.
Qed.

Lemma sscanf_UserScale_outcomes (line : string) :
  (exists v, sscanf_UserScale line = (1, Some v)) \/
  sscanf_UserScale line = (0, None) \/
  sscanf_UserScale line = (LibC.EOF, None).
Proof.
  unfold sscanf_UserScale.
  destruct (LibC.match_literal "UserScale=" line); auto.
  destruct (LibC.scan_float a); eauto.
Qed.

End ScanningFacts.

(* ================================================================= *)
(** ** The scanner reads numbers as the syntax describes them *)

Section NumberSyntaxFacts.

Local Open Scope string_scope.

Lemma app_assoc_string (a b c : string) : (a ++ b) ++ c = a ++ (b ++ c).
Proof. induction a as [| k a IH]; simpl; [reflexivity | now rewrite IH]. Qed.

Lemma length_app_string (a b : string) :
  String.length (a ++ b) = (String.length a + String.length b)%nat.
Proof. induction a as [| k a IH]; simpl; [reflexivity | now rewrite IH]. Qed.

Lemma all_of_app (p : ascii -> bool) (a b : string) :
  all_of p (a ++ b) = all_of p a && all_of p b.
Proof.
  unfold all_of. induction a as [| k a IH]; simpl; [reflexivity |].
  now rewrite IH, andb_assoc.
Qed.

(** *** Characters *)

Ltac each_char c :=
  destruct c as [[] [] [] [] [] [] [] []]; try discriminate; try reflexivity.

Lemma digit_facts (c : ascii) :
  LibC.isdigit c = true ->
  LibC.isxdigit c = true /\ LibC.isspace c = false /\
  Ascii.eqb c "+" = false /\ Ascii.eqb c "-" = false /\
  Ascii.eqb c "." = false /\
  Ascii.eqb (LibC.tolower c) "i" = false /\
  Ascii.eqb (LibC.tolower c) "n" = false /\
  Ascii.eqb (LibC.tolower c) "x" = false /\
  Ascii.eqb (LibC.tolower c) "e" = false /\
  Ascii.eqb (LibC.tolower c) "p" = false.
Proof. intros H. revert H. each_char c; intros _; repeat split. Qed.

Lemma xdigit_facts (c : ascii) :
  LibC.isxdigit c = true ->
  Ascii.eqb c "." = false /\
  Ascii.eqb (LibC.tolower c) "x" = false /\
  Ascii.eqb (LibC.tolower c) "p" = false.
Proof. intros H. revert H. each_char c; intros _; repeat split. Qed.

Lemma letter_e_facts (c : ascii) :
  Ascii.eqb (LibC.tolower c) "e" = true ->
  LibC.isdigit c = false /\ Ascii.eqb c "." = false /\
  Ascii.eqb (LibC.tolower c) "x" = false.
Proof. intros H. revert H. each_char c; intros _; repeat split. Qed.

Lemma letter_p_facts (c : ascii) :
  Ascii.eqb (LibC.tolower c) "p" = true ->
  LibC.isxdigit c = false /\ LibC.isdigit c = false /\
  Ascii.eqb c "." = false.
Proof. intros H. revert H. each_char c; intros _; repeat split. Qed.

Lemma letter_x_cases (c : ascii) :
  Ascii.eqb (LibC.tolower c) "x" = true -> c = "x"%char \/ c = "X"%char.
Proof. intros H. revert H. each_char c; intros _; auto. Qed.

Lemma point_facts :
  LibC.isdigit "." = false /\ LibC.isxdigit "." = false /\
  LibC.isspace "." = false.
Proof. repeat split. Qed.

Lemma scan_sign_other (c : ascii) (r : string) :
  Ascii.eqb c "+" = false -> Ascii.eqb c "-" = false ->
  LibC.scan_sign (String c r) = (false, String c r).
Proof. intros H1 H2. revert H1 H2. each_char c. Qed.

(** *** Runs of digits *)

Lemma digits_span (p : ascii -> bool) (input : string) :
  exists ds r,
    input = ds ++ r /\ all_of p ds = true /\ starts_with p r = false.
Proof.
  induction input as [| c input [ds [r [E [Hd Hr]]]]].
  - exists "", "". repeat split.
  - destruct (p c) eqn:Hc.
    + exists (String c ds), r. simpl. rewrite <- E. repeat split; trivial.
      unfold all_of in *. simpl. now rewrite Hc.
    + exists "", (String c input). repeat split. exact Hc.
Qed.

Lemma numeral_in_app (hex : bool) (a b : string) :
  forall acc, numeral_in hex (a ++ b) acc
              = numeral_in hex b (numeral_in hex a acc).
Proof.
  unfold numeral_in. destruct hex;
    induction a as [| c a IH]; intros acc; simpl; trivial.
Qed.

Lemma scan_run_app (hex : bool) (ds r : string) :
  all_of (digit_in hex) ds = true -> starts_with (digit_in hex) r = false ->
  forall acc n,
    (if hex then LibC.scan_xdigits else LibC.scan_digits) (ds ++ r) acc n
    = (numeral_in hex ds acc, n + Z.of_nat (String.length ds), r).
Proof.
  intros Hd Hr. unfold numeral_in, digit_in, all_of in *.
  destruct hex; induction ds as [| c ds IH]; intros acc n;
    cbn [String.append String.length numeral LibC.scan_xdigits
         LibC.scan_digits list_ascii_of_string forallb] in *.
  - rewrite Z.add_0_r. destruct r as [| c r]; [reflexivity |].
    cbn [starts_with LibC.scan_xdigits] in *. now rewrite Hr.
  - apply andb_prop in Hd. destruct Hd as [Hc Hd]. rewrite Hc, (IH Hd).
    f_equal. f_equal. lia.
  - rewrite Z.add_0_r. destruct r as [| c r]; [reflexivity |].
    cbn [starts_with LibC.scan_digits] in *. now rewrite Hr.
  - apply andb_prop in Hd. destruct Hd as [Hc Hd]. rewrite Hc, (IH Hd).
    f_equal. f_equal. lia.
Qed.

Lemma starts_with_nonempty_run (p : ascii -> bool) (ds r : string) :
  all_of p ds = true -> starts_with p r = false ->
  starts_with p (ds ++ r) = negb (String.eqb ds "").
Proof.
  intros Hd Hr. destruct ds as [| c ds]; simpl; [exact Hr |].
  unfold all_of in Hd. simpl in Hd. now apply andb_prop in Hd.
Qed.

(** *** The mantissa *)

Lemma scan_mantissa_app (hex : bool) (I F r : string) (point : bool) :
  all_of (digit_in hex) I = true -> all_of (digit_in hex) F = true ->
  (point = false -> F = "") ->
  starts_with (digit_in hex) r = false ->
  (point = false -> starts_with is_point r = false) ->
  LibC.scan_mantissa hex (I ++ (if point then "." ++ F else "") ++ r)
  = (numeral_in hex (I ++ F) 0, Z.of_nat (String.length I),
     Z.of_nat (String.length F), point, r).
Proof.
  intros HI HF HpF Hr Hpr. unfold LibC.scan_mantissa.
  assert (Hdot : digit_in hex "." = false) by (destruct hex; reflexivity).
  destruct point.
  - rewrite (scan_run_app hex I (("." ++ F) ++ r) HI Hdot).
    cbn [String.append]. cbn [Ascii.eqb Bool.eqb].
    rewrite (scan_run_app hex F r HF Hr).
    rewrite numeral_in_app. reflexivity.
  - pose proof (HpF eq_refl) as EF. subst F. cbn [String.append].
    rewrite (scan_run_app hex I r HI Hr).
    rewrite numeral_in_app.
    assert (E0 : numeral_in hex "" (numeral_in hex I 0) = numeral_in hex I 0)
      by (destruct hex; reflexivity).
    rewrite E0.
    destruct r as [| c r]; [reflexivity |].
    specialize (Hpr eq_refl). cbn [starts_with] in Hpr. unfold is_point in Hpr.
    now rewrite Hpr.
Qed.

Lemma mantissa_span (hex : bool) (input : string) :
  exists (I : string) (point : bool) (F r : string),
    input = I ++ (if point then "." ++ F else "") ++ r /\
    all_of (digit_in hex) I = true /\ all_of (digit_in hex) F = true /\
    (point = false -> F = "") /\
    starts_with (digit_in hex) r = false /\
    (point = false -> starts_with is_point r = false).
Proof.
  destruct (digits_span (digit_in hex) input) as [I [r1 [E [HI Hr1]]]].
  destruct r1 as [| c r1'].
  - exists I, false, "", "". repeat split; trivial.
  - destruct (Ascii.eqb c ".") eqn:Ec.
    + apply Ascii.eqb_eq in Ec. subst c.
      destruct (digits_span (digit_in hex) r1') as [F [r [E' [HF Hr]]]].
      exists I, true, F, r. subst r1' input.
      repeat split; trivial; discriminate.
    + exists I, false, "", (String c r1'). repeat split; trivial.
Qed.

(** *** The exponent *)

Lemma is_sign_cases (sg : string) :
  is_sign sg = true -> sg = "" \/ sg = "+" \/ sg = "-".
Proof.
  unfold is_sign. intros H.
  apply orb_prop in H. destruct H as [H | H].
  - apply orb_prop in H. destruct H as [H | H];
      apply String.eqb_eq in H; auto.
  - apply String.eqb_eq in H. auto.
Qed.

Lemma scan_sign_inv (input : string) (s : bool) (r : string) :
  LibC.scan_sign input = (s, r) ->
  exists sg, input = sg ++ r /\ is_sign sg = true /\ s = String.eqb sg "-".
Proof.
  destruct input as [| c t].
  - intros H. injection H as <- <-. exists "". repeat split.
  - destruct (Ascii.eqb c "-") eqn:Em.
    { apply Ascii.eqb_eq in Em. subst c. intros H. injection H as <- <-.
      exists "-". repeat split. }
    destruct (Ascii.eqb c "+") eqn:Ep.
    { apply Ascii.eqb_eq in Ep. subst c. intros H. injection H as <- <-.
      exists "+". repeat split. }
    rewrite (scan_sign_other c t Ep Em). intros H. injection H as <- <-.
    exists "". repeat split.
Qed.

Lemma scan_sign_digits (sg ds r : string) :
  is_sign sg = true -> all_of LibC.isdigit ds = true -> ds <> "" ->
  LibC.scan_sign (sg ++ ds ++ r) = (String.eqb sg "-", ds ++ r).
Proof.
  intros Hs Hd Hn.
  destruct (is_sign_cases sg Hs) as [-> | [-> | ->]]; try reflexivity.
  destruct ds as [| d ds]; [congruence |].
  unfold all_of in Hd. cbn [list_ascii_of_string forallb] in Hd.
  apply andb_prop in Hd. destruct Hd as [Hc _].
  destruct (digit_facts d Hc) as [_ [_ [Hp [Hm _]]]].
  cbn [String.append String.eqb]. now apply scan_sign_other.
Qed.

Lemma scan_exponent_app (sg ds r : string) :
  is_sign sg = true -> all_of LibC.isdigit ds = true -> ds <> "" ->
  starts_with LibC.isdigit r = false ->
  LibC.scan_exponent (sg ++ ds ++ r)
  = Some (exponent_value (Some ("e"%char, sg, ds))).
Proof.
  intros Hs Hd Hn Hr. unfold LibC.scan_exponent.
  rewrite (scan_sign_digits sg ds r Hs Hd Hn).
  rewrite (scan_run_app false ds r Hd Hr).
  destruct ds as [| d ds]; [congruence |].
  replace (0 + Z.of_nat (String.length (String d ds)) =? 0)%Z with false.
  - unfold exponent_value, numeral_in. reflexivity.
  - symmetry. apply Z.eqb_neq. cbn [String.length]. lia.
Qed.

Lemma scan_exponent_inv (input : string) (ex : Z) :
  LibC.scan_exponent input = Some ex ->
  exists sg ds r,
    input = sg ++ ds ++ r /\ is_sign sg = true /\
    all_of LibC.isdigit ds = true /\ ds <> "" /\
    starts_with LibC.isdigit r = false /\
    ex = exponent_value (Some ("e"%char, sg, ds)).
Proof.
  unfold LibC.scan_exponent.
  destruct (LibC.scan_sign input) as [neg t] eqn:Es.
  destruct (scan_sign_inv _ _ _ Es) as [sg [E [Hs Hneg]]].
  destruct (digits_span LibC.isdigit t) as [ds [r [Et [Hd Hr]]]].
  subst t. rewrite (scan_run_app false ds r Hd Hr).
  destruct ds as [| d ds]; [discriminate |].
  replace (0 + Z.of_nat (String.length (String d ds)) =? 0)%Z with false
    by (symmetry; apply Z.eqb_neq; cbn [String.length]; lia).
  intros H. injection H as <-.
  exists sg, (String d ds), r. subst neg.
  repeat split; trivial; discriminate.
Qed.

Lemma scan_exponent_begins (input : string) :
  LibC.scan_exponent input = None <-> begins_signed_digits input = false.
Proof.
  unfold LibC.scan_exponent.
  destruct (LibC.scan_sign input) as [neg t] eqn:Es.
  destruct (digits_span LibC.isdigit t) as [ds [r [Et [Hd Hr]]]].
  assert (Hb : begins_signed_digits input = starts_with LibC.isdigit t).
  { destruct input as [| c u].
    - injection Es as <- <-. reflexivity.
    - cbn [begins_signed_digits].
      destruct (Ascii.eqb c "-") eqn:Em.
      { apply Ascii.eqb_eq in Em. subst c. injection Es as <- <-.
        reflexivity. }
      destruct (Ascii.eqb c "+") eqn:Ep.
      { apply Ascii.eqb_eq in Ep. subst c. injection Es as <- <-.
        reflexivity. }
      rewrite (scan_sign_other c u Ep Em) in Es. injection Es as <- <-.
      reflexivity. }
  rewrite Hb. subst t.
  rewrite (scan_run_app false ds r Hd Hr).
  rewrite (starts_with_nonempty_run _ _ _ Hd Hr).
  destruct ds as [| d ds].
  - cbn. split; trivial.
  - replace (0 + Z.of_nat (String.length (String d ds)) =? 0)%Z with false
      by (symmetry; apply Z.eqb_neq; cbn [String.length]; lia).
    cbn. split; discriminate.
Qed.

Lemma exponent_part_app (letter : ascii)
    (e : option (ascii * string * string)) (rest : string) :
  exponent_ok letter e = true ->
  match e with
  | Some _ => starts_with LibC.isdigit rest = false
  | None => begins_exponent letter rest = false
  end ->
  LibC.scan_exponent_part letter (exponent_text e ++ rest) = exponent_value e.
Proof.
  intros Hok Hend. destruct e as [[[c sg] ds] |].
  - unfold exponent_ok in Hok.
    apply andb_prop in Hok. destruct Hok as [Hok Hn].
    apply andb_prop in Hok. destruct Hok as [Hok Hd].
    apply andb_prop in Hok. destruct Hok as [Hc Hs].
    assert (Hne : ds <> "").
    { intros ->. discriminate Hn. }
    cbn [exponent_text String.append LibC.scan_exponent_part].
    rewrite Hc, app_assoc_string.
    now rewrite (scan_exponent_app sg ds rest Hs Hd Hne Hend).
  - cbn [exponent_text String.append].
    destruct rest as [| c r]; [reflexivity |].
    cbn [begins_exponent] in Hend. cbn [LibC.scan_exponent_part].
    destruct (Ascii.eqb (LibC.tolower c) letter); [| reflexivity].
    cbn [andb] in Hend. apply scan_exponent_begins in Hend.
    now rewrite Hend.
Qed.

Lemma exponent_part_span (letter : ascii) (input : string) :
  exists e rest,
    input = exponent_text e ++ rest /\ exponent_ok letter e = true /\
    match e with
    | Some _ => starts_with LibC.isdigit rest = false
    | None => begins_exponent letter rest = false
    end.
Proof.
  destruct input as [| c r].
  - exists None, "". repeat split.
  - destruct (Ascii.eqb (LibC.tolower c) letter) eqn:Ec.
    + destruct (LibC.scan_exponent r) as [ex |] eqn:Ex.
      * destruct (scan_exponent_inv r ex Ex)
          as [sg [ds [rest [E [Hs [Hd [Hn [Hr _]]]]]]]].
        exists (Some (c, sg, ds)), rest. subst r. repeat split.
        -- cbn [exponent_text String.append]. now rewrite app_assoc_string.
        -- unfold exponent_ok. rewrite Ec, Hs, Hd. cbn [andb].
           destruct ds; [congruence | reflexivity].
        -- exact Hr.
      * exists None, (String c r). repeat split.
        cbn [begins_exponent]. rewrite Ec. cbn [andb].
        now apply scan_exponent_begins.
    + exists None, (String c r). repeat split.
      cbn [begins_exponent]. now rewrite Ec.
Qed.

(** *** A constant without its sign and prefix *)


(** *** A constant without its sign and prefix *)

Lemma mantissa_ok_parts (hex : bool) (I F : string) (point : bool) :
  mantissa_ok hex I point F = true ->
  all_of (digit_in hex) I = true /\ all_of (digit_in hex) F = true /\
  (point = false -> F = "") /\ I ++ F <> "".
Proof.
  unfold mantissa_ok. intros H.
  apply andb_prop in H. destruct H as [H Hn].
  apply andb_prop in H. destruct H as [H Hp].
  apply andb_prop in H. destruct H as [HI HF].
  repeat split; trivial.
  - intros ->. cbn [orb] in Hp. now apply String.eqb_eq in Hp.
  - intros E. rewrite E in Hn. discriminate Hn.
Qed.

Lemma scan_constant_app (hex s : bool) (I F rest : string) (point : bool)
    (e : option (ascii * string * string)) :
  mantissa_ok hex I point F = true ->
  exponent_ok (LibC.exponent_letter hex) e = true ->
  ends_constant hex point e rest = true ->
  LibC.scan_constant hex s
    (I ++ (if point then "." ++ F else "") ++ exponent_text e ++ rest)
  = Some (LibC.constant_value hex s (numeral_in hex (I ++ F) 0)
            (exponent_value e) (Z.of_nat (String.length F))).
Proof.
  intros Hm He Hend.
  destruct (mantissa_ok_parts hex I F point Hm) as [HI [HF [HpF Hne]]].
  assert (Hr : starts_with (digit_in hex) (exponent_text e ++ rest) = false
               /\ (point = false ->
                   starts_with is_point (exponent_text e ++ rest) = false)
               /\ match e with
                  | Some _ => starts_with LibC.isdigit rest = false
                  | None =>
                      begins_exponent (LibC.exponent_letter hex) rest = false
                  end).
  { unfold ends_constant in Hend. destruct e as [[[c sg] ds] |].
    - apply negb_true_iff in Hend.
      unfold exponent_ok in He.
      apply andb_prop in He. destruct He as [He _].
      apply andb_prop in He. destruct He as [He _].
      apply andb_prop in He. destruct He as [Hc _].
      cbn [exponent_text String.append starts_with]. unfold is_point.
      destruct hex; cbn [LibC.exponent_letter digit_in] in *.
      + destruct (letter_p_facts c Hc) as [Hx [_ Hp]]. auto.
      + destruct (letter_e_facts c Hc) as [Hx [Hp _]]. auto.
    - apply andb_prop in Hend. destruct Hend as [Hend Hb].
      apply andb_prop in Hend. destruct Hend as [Hd Hp].
      apply negb_true_iff in Hd, Hb. cbn [exponent_text String.append].
      repeat split; trivial.
      intros ->. cbn [orb] in Hp. now apply negb_true_iff in Hp. }
  destruct Hr as [Hr1 [Hr2 Hr3]].
  unfold LibC.scan_constant.
  rewrite (scan_mantissa_app hex I F _ point HI HF HpF Hr1 Hr2).
  assert (Hlen : (Z.of_nat (String.length I) + Z.of_nat (String.length F)
                  =? 0)%Z = false).
  { apply Z.eqb_neq. intros E.
    destruct I as [| a I]; [| cbn [String.length] in E; lia].
    destruct F as [| b F]; [| cbn [String.length] in E; lia].
    now apply Hne. }
  rewrite Hlen.
  now rewrite (exponent_part_app _ e rest He Hr3).
Qed.

Lemma scan_constant_inv (hex s : bool) (input : string) (v : float) :
  LibC.scan_constant hex s input = Some v ->
  v = S754_zero s \/
  exists (I : string) (point : bool) (F : string)
         (e : option (ascii * string * string)) (rest : string),
    input = I ++ (if point then "." ++ F else "") ++ exponent_text e ++ rest
    /\ mantissa_ok hex I point F = true
    /\ exponent_ok (LibC.exponent_letter hex) e = true
    /\ ends_constant hex point e rest = true
    /\ v = LibC.constant_value hex s (numeral_in hex (I ++ F) 0)
             (exponent_value e) (Z.of_nat (String.length F)).
Proof.
  destruct (mantissa_span hex input)
    as [I [point [F [r [E [HI [HF [HpF [Hr1 Hr2]]]]]]]]].
  destruct (exponent_part_span (LibC.exponent_letter hex) r)
    as [e [rest [Er [He Hend]]]].
  destruct (String.eqb (I ++ F) "") eqn:Hne.
  - (* no digit at all *)
    apply String.eqb_eq in Hne.
    assert (EI : I = "") by (destruct I; [reflexivity | discriminate Hne]).
    subst I. cbn [String.append] in Hne. subst F.
    unfold LibC.scan_constant. subst input.
    rewrite (scan_mantissa_app hex "" "" r point HI HF HpF Hr1 Hr2).
    cbn [String.length Z.of_nat Z.add Z.eqb].
    destruct (hex && point); [| discriminate].
    intros H. injection H as <-. now left.
  - intros H. right. exists I, point, F, e, rest.
    assert (Hm : mantissa_ok hex I point F = true).
    { unfold mantissa_ok. rewrite HI, HF, Hne. cbn [andb negb].
      destruct point; [reflexivity |]. now rewrite (HpF eq_refl). }
    assert (Hec : ends_constant hex point e rest = true).
    { unfold ends_constant. destruct e as [[[c sg] ds] |].
      - now rewrite Hend.
      - cbn [exponent_text String.append] in Er. subst r.
        rewrite Hr1, Hend. cbn [negb andb].
        destruct point; [reflexivity |]. now rewrite (Hr2 eq_refl). }
    subst input r. repeat split; trivial.
    rewrite (scan_constant_app hex s I F rest point e Hm He Hec) in H.
    now injection H as <-.
Qed.

(** *** A number with its sign and prefix *)

Lemma scan_sign_body (sg : string) (c : ascii) (t : string) :
  is_sign sg = true ->
  Ascii.eqb c "+" = false -> Ascii.eqb c "-" = false ->
  LibC.scan_sign (sg ++ String c t) = (String.eqb sg "-", String c t).
Proof.
  intros Hs Hp Hm.
  destruct (is_sign_cases sg Hs) as [-> | [-> | ->]]; try reflexivity.
  cbn [String.append String.eqb]. now apply scan_sign_other.
Qed.

Lemma scan_unsigned_decimal (s : bool) (c : ascii) (t : string) :
  Ascii.eqb (LibC.tolower c) "i" = false ->
  Ascii.eqb (LibC.tolower c) "n" = false ->
  (Ascii.eqb c "0" = true -> starts_with is_x t = false) ->
  LibC.scan_unsigned s (String c t) = LibC.scan_decimal s (String c t).
Proof.
  intros Hi Hn Hx. unfold LibC.scan_unsigned. rewrite Hi, Hn.
  destruct (Ascii.eqb c "0"); [| reflexivity].
  destruct t as [| x t]; [reflexivity |].
  specialize (Hx eq_refl). cbn [starts_with] in Hx. unfold is_x in Hx.
  now rewrite Hx.
Qed.

(** The first character of a decimal constant is a digit or the point; when
    it is [0], no [x] follows it. *)
Lemma decimal_first_character (I F rest : string) (point : bool)
    (e : option (ascii * string * string)) :
  mantissa_ok false I point F = true ->
  exponent_ok "e" e = true ->
  negb (String.eqb (I ++ (if point then "." ++ F else "") ++ exponent_text e)
          "0" && starts_with is_x rest) = true ->
  exists c t,
    I ++ (if point then "." ++ F else "") ++ exponent_text e ++ rest
    = String c t /\
    LibC.isspace c = false /\
    Ascii.eqb c "+" = false /\ Ascii.eqb c "-" = false /\
    Ascii.eqb (LibC.tolower c) "i" = false /\
    Ascii.eqb (LibC.tolower c) "n" = false /\
    (Ascii.eqb c "0" = true -> starts_with is_x t = false).
Proof.
  intros Hm He Hz.
  destruct (mantissa_ok_parts false I F point Hm) as [HI [HF [HpF Hne]]].
  destruct I as [| d I'].
  - destruct point.
    + eexists _, _. split; [reflexivity |]. repeat split. discriminate.
    + rewrite (HpF eq_refl) in Hne. now elim Hne.
  - unfold all_of in HI. cbn [list_ascii_of_string forallb digit_in] in HI.
    apply andb_prop in HI. destruct HI as [Hd HI'].
    destruct (digit_facts d Hd) as [_ [Hsp [Hp [Hmi [_ [Hi [Hn _]]]]]]].
    eexists _, _. split; [reflexivity |]. repeat split; trivial.
    intros E0. apply Ascii.eqb_eq in E0. subst d.
    destruct I' as [| d' I''].
    + cbn [String.append]. destruct point.
      * reflexivity.
      * cbn [String.append] in *. destruct e as [[[c sg] ds] |].
        -- unfold exponent_ok in He.
           apply andb_prop in He. destruct He as [He _].
           apply andb_prop in He. destruct He as [He _].
           apply andb_prop in He. destruct He as [Hc _].
           cbn [exponent_text String.append starts_with]. unfold is_x.
           now destruct (letter_e_facts c Hc) as [_ [_ Hx]].
        -- cbn [exponent_text String.append] in *.
           cbn [String.eqb Ascii.eqb Bool.eqb andb] in Hz.
           now apply negb_true_iff in Hz.
    + cbn [list_ascii_of_string forallb] in HI'.
      apply andb_prop in HI'. destruct HI' as [Hd' _].
      cbn [String.append starts_with]. unfold is_x.
      now destruct (digit_facts d' Hd') as [_ [_ [_ [_ [_ [_ [_ [Hx _]]]]]]]].
Qed.

Lemma radix_cases (rad : string) :
  (String.eqb rad "" || String.eqb rad "0x" || String.eqb rad "0X") = true ->
  rad = "" \/ rad = "0x" \/ rad = "0X".
Proof.
  intros H. apply orb_prop in H. destruct H as [H | H].
  - apply orb_prop in H. destruct H as [H | H];
      apply String.eqb_eq in H; auto.
  - apply String.eqb_eq in H. auto.
Qed.

Lemma well_formed_parts (n : number_text) :
  well_formed n = true ->
  is_sign (nt_sign n) = true /\
  (nt_radix n = "" \/ nt_radix n = "0x" \/ nt_radix n = "0X") /\
  mantissa_ok (nt_hex n) (nt_int n) (nt_point n) (nt_frac n) = true /\
  exponent_ok (nt_letter n) (nt_exp n) = true.
Proof.
  unfold well_formed. intros H.
  apply andb_prop in H. destruct H as [H He].
  apply andb_prop in H. destruct H as [H Hm].
  apply andb_prop in H. destruct H as [Hs Hr].
  repeat split; trivial. now apply radix_cases.
Qed.

(** The scanner reads a well-formed number that ends where it is said to
    end, and gives its value. *)
Lemma scan_number_text (n : number_text) (rest : string) :
  well_formed n = true -> ends_before n rest = true ->
  LibC.scan_number (text_of n ++ rest) = Some (value_of n) /\
  starts_with LibC.isspace (text_of n ++ rest) = false.
Proof.
  intros Hw Hend.
  destruct (well_formed_parts n Hw) as [Hs [Hr [Hm He]]].
  unfold ends_before in Hend.
  apply andb_prop in Hend. destruct Hend as [Hec Hz].
  destruct n as [sg rad I point F e].
  unfold text_of, body_of, value_of, nt_letter, nt_hex in *.
  cbn [nt_sign nt_radix nt_int nt_point nt_frac nt_exp] in *.
  rewrite app_assoc_string.
  set (s := String.eqb sg "-").
  assert (Hmain :
    exists c t,
      (rad ++ I ++ (if point then "." ++ F else "") ++ exponent_text e)
        ++ rest = String c t /\
      LibC.isspace c = false /\
      Ascii.eqb c "+" = false /\ Ascii.eqb c "-" = false /\
      LibC.scan_unsigned s (String c t)
      = Some (LibC.constant_value (negb (String.eqb rad "")) s
                (numeral_in (negb (String.eqb rad "")) (I ++ F) 0)
                (exponent_value e) (Z.of_nat (String.length F)))).
  { destruct Hr as [-> | [-> | ->]];
      cbn [String.eqb Ascii.eqb Bool.eqb negb String.append] in *;
      rewrite ?app_assoc_string.
    - destruct (decimal_first_character I F rest point e Hm He Hz)
        as [c [t [E [Hsp [Hp [Hmi [Hi [Hn Hx]]]]]]]].
      exists c, t. split; [exact E |]. repeat split; trivial.
      rewrite (scan_unsigned_decimal s c t Hi Hn Hx), <- E.
      apply (scan_constant_app false s I F rest point e Hm He Hec).
    - eexists _, _. split; [reflexivity |]. repeat split.
      rewrite ?app_assoc_string.
      apply (scan_constant_app true s I F rest point e Hm He Hec).
    - eexists _, _. split; [reflexivity |]. repeat split.
      rewrite ?app_assoc_string.
      apply (scan_constant_app true s I F rest point e Hm He Hec). }
  destruct Hmain as [c [t [E [Hsp [Hp [Hmi Hscan]]]]]].
  rewrite E. split.
  - unfold LibC.scan_number.
    rewrite (scan_sign_body sg c t Hs Hp Hmi). exact Hscan.
  - destruct (is_sign_cases sg Hs) as [-> | [-> | ->]];
      cbn [String.append starts_with]; trivial.
Qed.

Lemma zero_out_of_range (s : bool) : in_sanity_range (S754_zero s) = false.
Proof. destruct s; reflexivity. Qed.

Lemma infinity_out_of_range (s : bool) :
  in_sanity_range (S754_infinity s) = false.
Proof. destruct s; reflexivity. Qed.

(** The decimal branch of the scanner, read back as a number text. *)
Lemma decimal_number_at (sg r : string) (v : float) :
  is_sign sg = true ->
  LibC.scan_constant false (String.eqb sg "-") r = Some v ->
  in_sanity_range v = true ->
  (forall c t, r = String "0" (String c t) -> is_x c = false) ->
  number_at (sg ++ r) v.
Proof.
  intros Hs Hscan Hv H0x.
  destruct (scan_constant_inv _ _ _ _ Hscan)
    as [-> | [I [point [F [e [rest [E [Hm [He [Hec Hval]]]]]]]]]].
  { now rewrite zero_out_of_range in Hv. }
  exists (mkNumberText sg "" I point F e), rest.
  unfold well_formed, ends_before, value_of, nt_letter, nt_hex, text_of,
    body_of.
  cbn [nt_sign nt_radix nt_int nt_point nt_frac nt_exp String.eqb negb
       String.append].
  repeat split.
  - rewrite E, !app_assoc_string. reflexivity.
  - now rewrite Hs, Hm, He.
  - rewrite Hec. cbn [andb].
    match goal with
    | |- context [String.eqb ?B "0"] =>
        destruct (String.eqb B "0") eqn:Eb; [| reflexivity];
        assert (Er : r = B ++ rest)
          by (rewrite E, !app_assoc_string; reflexivity)
    end.
    apply String.eqb_eq in Eb. rewrite Eb in Er.
    destruct rest as [| c t]; [reflexivity |].
    cbn [andb starts_with]. now rewrite (H0x c t Er).
  - now symmetry.
Qed.

(** The hexadecimal branch of the scanner, read back as a number text. *)
Lemma hexadecimal_number_at (sg r : string) (x : ascii) (v : float) :
  is_sign sg = true -> is_x x = true ->
  LibC.scan_constant true (String.eqb sg "-") r = Some v ->
  in_sanity_range v = true ->
  number_at (sg ++ String "0" (String x r)) v.
Proof.
  intros Hs Hx Hscan Hv.
  destruct (scan_constant_inv _ _ _ _ Hscan)
    as [-> | [I [point [F [e [rest [E [Hm [He [Hec Hval]]]]]]]]]].
  { now rewrite zero_out_of_range in Hv. }
  exists (mkNumberText sg (String "0" (String x "")) I point F e), rest.
  unfold well_formed, ends_before, value_of, nt_letter, nt_hex, text_of,
    body_of.
  cbn [nt_sign nt_radix nt_int nt_point nt_frac nt_exp String.eqb negb
       String.append Ascii.eqb Bool.eqb andb].
  repeat split.
  - rewrite E, ?app_assoc_string. cbn [String.append].
    rewrite ?app_assoc_string. reflexivity.
  - rewrite Hs, Hm, He.
    destruct (letter_x_cases x Hx) as [-> | ->]; reflexivity.
  - rewrite Hec. reflexivity.
  - now symmetry.
Qed.

(** What the scanner converts to a value in the sanity range is a number
    as the syntax describes it. *)
Lemma scan_number_in_range (input : string) (v : float) :
  LibC.scan_number input = Some v -> in_sanity_range v = true ->
  number_at input v.
Proof.
  unfold LibC.scan_number.
  destruct (LibC.scan_sign input) as [s r] eqn:Es.
  destruct (scan_sign_inv _ _ _ Es) as [sg [E [Hs Hneg]]].
  subst input s. intros Hscan Hv.
  destruct r as [| c r']; [discriminate |].
  unfold LibC.scan_unsigned in Hscan.
  destruct (Ascii.eqb (LibC.tolower c) "i") eqn:Ei.
  { destruct (LibC.common_prefix "infinity" (String c r'))
      as [| [| [| [| [| [| [| [| [| k]]]]]]]]]; try discriminate;
      injection Hscan as <-; now rewrite infinity_out_of_range in Hv. }
  destruct (Ascii.eqb (LibC.tolower c) "n") eqn:En.
  { destruct (LibC.common_prefix "nan" (String c r'))
      as [| [| [| [| k]]]]; try discriminate.
    injection Hscan as <-. discriminate Hv. }
  destruct (Ascii.eqb c "0") eqn:E0.
  - apply Ascii.eqb_eq in E0. subst c.
    destruct r' as [| x r''].
    + apply (decimal_number_at sg "0" v Hs Hscan Hv).
      intros c t H. discriminate H.
    + destruct (Ascii.eqb (LibC.tolower x) "x") eqn:Ex.
      * now apply hexadecimal_number_at.
      * apply (decimal_number_at sg _ v Hs Hscan Hv).
        intros c t H. injection H as <- _. exact Ex.
  - apply (decimal_number_at sg _ v Hs Hscan Hv).
    intros k t H. injection H as -> _. discriminate E0.
Qed.

(** *** The line *)

Lemma fits_converted (line : string) (v : float) :
  fits_scanf_pattern line v -> sscanf_UserScale line = (1%Z, Some v).
Proof.
  intros [ws [tail [E [Hws [n [rest [Et [Hw [Hend Hv]]]]]]]]].
  apply sscanf_UserScale_converts. exists ws, tail. repeat split; trivial.
  subst tail v. now apply scan_number_text.
Qed.

Lemma converted_fits (line : string) (v : float) :
  sscanf_UserScale line = (1%Z, Some v) -> in_sanity_range v = true ->
  fits_scanf_pattern line v.
Proof.
  intros Hs Hv. apply sscanf_UserScale_converts in Hs.
  destruct Hs as [ws [tail [E [Hws Hn]]]].
  exists ws, tail. repeat split; trivial.
  now apply scan_number_in_range.
Qed.

End NumberSyntaxFacts.

(* ================================================================= *)
(** ** Global user scale and persistence *)

Section PersistenceFacts.

Local Open Scope string_scope.

Variable ImHashStr : string -> ImGuiID.

Lemma ReadLine_null (line : string) (g : Globals) :
  SettingsHandler_ReadLine nullptr line g = g.
Proof. reflexivity. Qed.

(** What the callback does with a valid token, by the outcome of [sscanf]. *)
Lemma ReadLine_converted (entry : void_ptr) (line : string) (g : Globals)
    (v : float) :
  entry <> nullptr -> sscanf_UserScale line = (1, Some v) ->
  SettingsHandler_ReadLine entry line g
  = if in_sanity_range v then set_userScale v g else g.
Proof.
  intros He Hs. unfold SettingsHandler_ReadLine.
  apply Z.eqb_neq in He. rewrite He, Hs. reflexivity.
Qed.

Lemma ReadLine_not_converted (entry : void_ptr) (line : string) (g : Globals) :
  (forall v, sscanf_UserScale line <> (1, Some v)) ->
  SettingsHandler_ReadLine entry line g = g.
Proof.
  intros Hn. unfold SettingsHandler_ReadLine.
  destruct (Z.eqb entry nullptr); [reflexivity |].
  destruct (sscanf_UserScale_outcomes line) as [[v H] | [H | H]].
  - now apply Hn in H.
  - now rewrite H.
  - now rewrite H.
Qed.

(** The callback never leaves a non-positive user scale behind. *)
Lemma ReadLine_keeps_positive (entry : void_ptr) (line : string)
    (g : Globals) :
  F32.gt (g_userScale g) F32.zero = true ->
  F32.gt (g_userScale (SettingsHandler_ReadLine entry line g)) F32.zero
  = true.
Proof.
  intros Hg. unfold SettingsHandler_ReadLine.
  destruct (Z.eqb entry nullptr); [exact Hg |].
  destruct (sscanf_UserScale line) as [n [v |]];
    destruct n as [| [| |] |]; try exact Hg.
  destruct (F32.gt v F32.zero) eqn:Hv; simpl; [| exact Hg].
  destruct (F32.le v F32.ten); simpl; assumption.
Qed.

Lemma SetUserScale_keeps_positive (scale : float) (p : Process) :
  F32.gt (GetUserScale p) F32.zero = true ->
  F32.gt (GetUserScale (SetUserScale scale p)) F32.zero = true.
Proof.
  intros Hp. unfold SetUserScale.
  destruct (F32.gt scale F32.zero) eqn:Hs; [exact Hs | exact Hp].
Qed.

Lemma Register_keeps_userScale (p : Process) :
  GetUserScale (RegisterSettingsHandler ImHashStr p) = GetUserScale p.
Proof.
  unfold RegisterSettingsHandler.
  destruct (g_settingsHandlerRegistered (statics p)); [reflexivity |].
  destruct (GetCurrentContext p); reflexivity.
Qed.

Lemma api_step_keeps_positive (c : api_call) (p : Process) :
  F32.gt (GetUserScale p) F32.zero = true ->
  F32.gt (GetUserScale (api_step ImHashStr c p)) F32.zero = true.
Proof.
  intros Hp. destruct c as [s | entry line |]; simpl.
  - now apply SetUserScale_keeps_positive.
  - now apply ReadLine_keeps_positive.
  - now rewrite Register_keeps_userScale.
Qed.

Lemma api_run_keeps_positive (cs : list api_call) :
  forall p, F32.gt (GetUserScale p) F32.zero = true ->
    F32.gt (GetUserScale (api_run ImHashStr cs p)) F32.zero = true.
Proof.
  induction cs as [| c cs IH]; intros p Hp; simpl.
  - exact Hp.
  - apply IH, api_step_keeps_positive, Hp.
Qed.

End PersistenceFacts.

Section PersistenceClaims.

Local Open Scope string_scope.

Lemma string_app_assoc (a b c : string) : (a ++ b) ++ c = a ++ (b ++ c).
Proof. induction a as [| x a IH]; simpl; [reflexivity | now rewrite IH]. Qed.

(** C2: with the global user scale at [1.25] the write-all callback of the
    registered handler appends exactly the block
    [[ImGuiScaling][Data]], new line, [UserScale=1.250], new line, new line;
    and the read-line callback, given the token the open-entry callback
    returns for [Data] and the line [UserScale=1.250], sets the global user
    scale to [1.25]. *)
Theorem persistence_round_trip (ImHashStr : string -> ImGuiID)
    (buf : ImGuiTextBuffer) (registered : bool) (g : Globals) :
  let h := the_handler ImHashStr in
  WriteAllFn h (TypeName h)
    {| g_userScale := F32.quart5; g_settingsHandlerRegistered := registered |}
    buf
  = buf ++ "[ImGuiScaling][Data]" ++ LibC.nl
        ++ "UserScale=1.250" ++ LibC.nl ++ LibC.nl /\
  ReadOpenFn h "Data" <> nullptr /\
  g_userScale (ReadLineFn h (ReadOpenFn h "Data") "UserScale=1.250" g)
  = F32.quart5.
Proof.
  cbv zeta. split; [| split].
  - cbn [the_handler WriteAllFn TypeName].
    unfold SettingsHandler_WriteAll, append. cbn [g_userScale].
    rewrite !string_app_assoc. reflexivity.
  - discriminate.
  - reflexivity.
Qed.

(** C3, as stated: the user scale would be overwritten exactly on the lines
    that are [UserScale=] immediately followed by a number in the range.
    It fails on the line [UserScale= 1.5], which has a space after the [=]:
    the callback stores [1.5]. *)
Lemma ReadLine_not_exact_pattern :
  ~ (forall (entry : void_ptr) (line : string) (g : Globals),
        entry <> nullptr ->
        (exists v, fits_exact_pattern line v /\ in_sanity_range v = true /\
                   SettingsHandler_ReadLine entry line g = set_userScale v g)
        \/
        ((forall v, fits_exact_pattern line v -> in_sanity_range v = false) /\
         SettingsHandler_ReadLine entry line g = g)).
Proof.
  intros H.
  destruct (H 1%Z "UserScale= 1.5" Globals_init) as [[v [Hf _]] | [_ Hg]].
  - discriminate.
  - destruct Hf as [tail [E [n [rest [Et [Hw [Hend _]]]]]]].
    injection E as <-.
    destruct (scan_number_text n rest Hw Hend) as [_ Hsp].
    rewrite <- Et in Hsp. discriminate Hsp.
  - discriminate Hg.
Qed.

(** C3, amended: with a valid entry token, the global user scale is
    overwritten with the parsed value exactly when the line begins with
    [UserScale=] followed, after optional white space, by a floating-point
    number, taken as far as it extends (what comes after the number is
    ignored), whose value lies in (0, 10]; every other line leaves the
    global user scale unchanged.  A number is an optional sign, then
    decimal digits with an optional point and an optional exponent [e], or
    [0x] and hexadecimal digits with an optional point and an optional
    exponent [p]; its value is the nearest binary32 number. *)
Theorem ReadLine_scanf_pattern (entry : void_ptr) (line : string)
    (g : Globals) :
  entry <> nullptr ->
  (forall v, fits_scanf_pattern line v -> in_sanity_range v = true ->
             SettingsHandler_ReadLine entry line g = set_userScale v g) /\
  (forall v, fits_scanf_pattern line v -> in_sanity_range v = false ->
             SettingsHandler_ReadLine entry line g = g) /\
  ((forall v, ~ fits_scanf_pattern line v) ->
   SettingsHandler_ReadLine entry line g = g).
Proof.
  intros He. split; [| split].
  - intros v Hf Hr. apply fits_converted in Hf.
    rewrite (ReadLine_converted entry line g v He Hf). now rewrite Hr.
  - intros v Hf Hr. apply fits_converted in Hf.
    rewrite (ReadLine_converted entry line g v He Hf). now rewrite Hr.
  - intros Hn.
    destruct (sscanf_UserScale_outcomes line) as [[v Hs] | Hs].
    + rewrite (ReadLine_converted entry line g v He Hs).
      destruct (in_sanity_range v) eqn:Hr; [| reflexivity].
      elim (Hn v). now apply converted_fits.
    + apply ReadLine_not_converted. intros v Hv.
      destruct Hs as [Hs | Hs]; rewrite Hs in Hv; discriminate Hv.
Qed.

Lemma ReadLine_scanf_pattern_witness :
  SettingsHandler_ReadLine 1%Z "UserScale= 1.5" Globals_init
  = set_userScale F32.half3 Globals_init /\
  SettingsHandler_ReadLine 1%Z "UserScale=1.5e" Globals_init
  = set_userScale F32.half3 Globals_init /\
  SettingsHandler_ReadLine 1%Z "UserScale=0x1.8p0;" Globals_init
  = set_userScale F32.half3 Globals_init.
Proof.
  assert (He : 1%Z <> nullptr) by discriminate.
  split; [| split].
  - apply (proj1 (ReadLine_scanf_pattern 1%Z "UserScale= 1.5" Globals_init
                    He)); [| reflexivity].
    exists " ", "1.5". split; [reflexivity | split; [reflexivity |]].
    exists (mkNumberText "" "" "1" true "5" None), "". repeat split.
  - apply (proj1 (ReadLine_scanf_pattern 1%Z "UserScale=1.5e" Globals_init
                    He)); [| reflexivity].
    exists "", "1.5e". split; [reflexivity | split; [reflexivity |]].
    exists (mkNumberText "" "" "1" true "5" None), "e". repeat split.
  - apply (proj1 (ReadLine_scanf_pattern 1%Z "UserScale=0x1.8p0;"
                    Globals_init He)); [| reflexivity].
    exists "", "0x1.8p0;". split; [reflexivity | split; [reflexivity |]].
    exists (mkNumberText "" "0x" "1" true "8" (Some ("p"%char, "", "0"))),
      ";".
    repeat split.
Defined.

(** C5: the global user scale starts at [1.0]; [SetUserScale] with a
    positive scale stores it, so that [GetUserScale] returns it, and marks
    the settings of the current context dirty when there is one (nothing
    else happens when there is none); with a scale that is not positive it
    changes nothing. *)
Theorem SetUserScale_contract (scale : float) (p : Process) :
  (forall ctx, GetUserScale (Process_init ctx) = F32.one) /\
  (F32.gt scale F32.zero = true ->
   GetUserScale (SetUserScale scale p) = scale /\
   g_settingsHandlerRegistered (statics (SetUserScale scale p))
   = g_settingsHandlerRegistered (statics p) /\
   (forall ctx, GetCurrentContext p = Some ctx ->
      exists ctx', GetCurrentContext (SetUserScale scale p) = Some ctx' /\
                   SettingsDirty ctx' = true /\
                   SettingsHandlers ctx' = SettingsHandlers ctx) /\
   (GetCurrentContext p = None ->
    GetCurrentContext (SetUserScale scale p) = None)) /\
  (F32.gt scale F32.zero = false -> SetUserScale scale p = p).
Proof.
  split; [reflexivity | split].
  - intros Hs. unfold SetUserScale. rewrite Hs.
    repeat split.
    + intros ctx Hc. cbn [GetCurrentContext]. rewrite Hc.
      eexists. repeat split.
    + intros Hc. cbn [GetCurrentContext]. now rewrite Hc.
  - intros Hs. unfold SetUserScale. now rewrite Hs.
Qed.

Lemma SetUserScale_contract_witness :
  GetUserScale (SetUserScale F32.half3 (Process_init None)) = F32.half3 /\
  GetUserScale
    (SetUserScale (F32.of_Z (-1))
       (SetUserScale F32.half3 (Process_init None))) = F32.half3 /\
  GetUserScale
    (SetUserScale F32.zero
       (SetUserScale F32.half3 (Process_init None))) = F32.half3.
Proof.
  split; [| split].
  - apply (proj1 (proj2 (SetUserScale_contract F32.half3
                           (Process_init None)))).
    reflexivity.
  - rewrite (proj2 (proj2 (SetUserScale_contract (F32.of_Z (-1))
                             (SetUserScale F32.half3 (Process_init None)))))
      by reflexivity.
    reflexivity.
  - rewrite (proj2 (proj2 (SetUserScale_contract F32.zero
                             (SetUserScale F32.half3 (Process_init None)))))
      by reflexivity.
    reflexivity.
Defined.

(** C6: [RegisterSettingsHandler] does nothing when the flag is already
    set; does nothing, leaving the flag false, when there is no current
    context; otherwise it appends exactly one handler (type name
    [ImGuiScaling], its hash and the three callbacks) to the context's
    handler list and sets the flag.  Calling it twice is the same as calling
    it once, so two calls install exactly one handler. *)
Theorem RegisterSettingsHandler_idempotent (ImHashStr : string -> ImGuiID) :
  let register := RegisterSettingsHandler ImHashStr in
  let h := the_handler ImHashStr in
  (TypeName h = "ImGuiScaling" /\ TypeHash h = ImHashStr "ImGuiScaling" /\
   ReadOpenFn h = SettingsHandler_ReadOpen /\
   ReadLineFn h = SettingsHandler_ReadLine /\
   WriteAllFn h = SettingsHandler_WriteAll) /\
  (forall us ctx,
      register (mkProcess (mkGlobals us true) ctx)
      = mkProcess (mkGlobals us true) ctx) /\
  (forall us,
      register (mkProcess (mkGlobals us false) None)
      = mkProcess (mkGlobals us false) None) /\
  (forall us handlers dirty,
      register (mkProcess (mkGlobals us false)
                  (Some (mkContext handlers dirty)))
      = mkProcess (mkGlobals us true)
          (Some (mkContext (handlers ++ [h])%list dirty))) /\
  (forall p, register (register p) = register p) /\
  (forall us handlers dirty,
      register (register (mkProcess (mkGlobals us false)
                            (Some (mkContext handlers dirty))))
      = mkProcess (mkGlobals us true)
          (Some (mkContext (handlers ++ [h])%list dirty))).
Proof.
  cbv zeta. repeat split.
  intros [[us [|]] [[handlers dirty] |]]; reflexivity.
Qed.

(** C8: the open-entry callback returns a non-null token exactly for the
    name [Data]; the read-line callback given a null token leaves the
    statics as they are, whatever the line. *)
Theorem ReadOpen_only_Data (name line : string) (g : Globals) :
  (SettingsHandler_ReadOpen name <> nullptr <-> name = "Data") /\
  SettingsHandler_ReadLine (SettingsHandler_ReadOpen "Other") line g = g /\
  SettingsHandler_ReadLine nullptr line g = g.
Proof.
  split; [| split; reflexivity].
  unfold SettingsHandler_ReadOpen.
  destruct (Z.eqb (LibC.strcmp name "Data") 0) eqn:E.
  - apply Z.eqb_eq, strcmp_eq in E. split; [trivial | discriminate].
  - apply Z.eqb_neq in E. rewrite strcmp_eq in E.
    split; [intros H; now elim H | intros H; now elim E].
Qed.

(** C10: the global user scale is positive at all times: after any sequence
    of [SetUserScale] calls, read-line callbacks and registrations from the
    initial state, [GetUserScale] is greater than [0]. *)
Theorem user_scale_always_positive (ImHashStr : string -> ImGuiID)
    (ctx : option ImGuiContext) (cs : list api_call) :
  F32.gt (GetUserScale (api_run ImHashStr cs (Process_init ctx))) F32.zero
  = true.
Proof.
  apply api_run_keeps_positive. reflexivity.
Qed.

End PersistenceClaims.

(* ================================================================= *)
(** * Further properties of the code *)

(** ** More binary32 facts *)

Section MoreFloatFacts.

Lemma mul_comm (a b : float) : F32.mul a b = F32.mul b a.
Proof.
  destruct a as [sa | sa | | sa ma ea], b as [sb | sb | | sb mb eb];
    unfold F32.mul; simpl; try reflexivity;
    try (now rewrite xorb_comm).
  now rewrite xorb_comm, Pos.mul_comm, Z.add_comm.
Qed.

Lemma mul_one_r (v : float) :
  F32.is_float32 v = true -> F32.mul v F32.one = v.
Proof. intros Hv. rewrite mul_comm. now apply mul_one_l. Qed.

Lemma SFcompare_Eq_sym (a b : spec_float) :
  SFcompare a b = Some Eq -> SFcompare b a = Some Eq.
Proof.
  destruct a as [sa | sa | | sa ma ea], b as [sb | sb | | sb mb eb]; simpl;
    try discriminate; try reflexivity;
    try (destruct sa; discriminate); try (destruct sb; discriminate).
  - destruct sa, sb; try discriminate; reflexivity.
  - rewrite (Z.compare_antisym ea eb).
    destruct sa, sb; try discriminate;
      destruct (ea ?= eb) eqn:E; simpl; try discriminate;
      rewrite !Pos.compare_cont_spec; simpl;
      rewrite (Pos.compare_antisym ma mb);
      destruct (ma ?= mb)%positive; simpl; try discriminate; reflexivity.
Qed.

Lemma eq_sym_true (a b : float) : F32.eq a b = true -> F32.eq b a = true.
Proof.
  unfold F32.eq, SFeqb. intros H.
  destruct (SFcompare a b) as [[| |] |] eqn:E; try discriminate H.
  now rewrite (SFcompare_Eq_sym _ _ E).
Qed.

(** Rounding keeps the sign it is given. *)
Lemma binary_round_aux_sign (s : bool) (m e : Z) (l : location) :
  0 <= m -> has_sign s (binary_round_aux F32.prec F32.emax s m e l) = true.
Proof.
  intros Hm. unfold binary_round_aux.
  pose proof (shr_fexp_nonneg m e l Hm) as H1.
  destruct (shr_fexp F32.prec F32.emax m e l) as [mrs1 e1]. simpl in H1.
  pose proof (shr_fexp_nonneg _ e1 loc_Exact
                (round_nearest_even_nonneg _ (loc_of_shr_record mrs1) H1))
    as H2.
  destruct (shr_fexp F32.prec F32.emax
              (round_nearest_even (shr_m mrs1) (loc_of_shr_record mrs1))
              e1 loc_Exact) as [mrs2 e2].
  simpl in H2.
  destruct (shr_m mrs2) as [| p | p].
  - apply eqb_reflx.
  - destruct (e2 <=? F32.emax - F32.prec); apply eqb_reflx.
  - lia.
Qed.

Lemma of_ratio_sign (s : bool) (n d : positive) :
  has_sign s (F32.of_ratio s n d) = true.
Proof.
  unfold F32.of_ratio, SFdiv_core_binary.
  set (e' := Z.min _ _). set (m' := match (0 - 0 - e') with
                                     | Z0 => Zpos n
                                     | Zpos _ => Z.shiftl (Zpos n) (0 - 0 - e')
                                     | Zneg _ => 0
                                     end).
  assert (Hm : 0 <= m').
  { unfold m'. destruct (0 - 0 - e'); try lia.
    apply Z.shiftl_nonneg. lia. }
  pose proof (Z.div_pos m' (Zpos d) Hm (Pos2Z.is_pos d)) as Hq.
  unfold Z.div in Hq.
  destruct (Z.div_eucl m' (Zpos d)) as [q r]. simpl in Hq.
  now apply binary_round_aux_sign.
Qed.

Lemma of_bin_sign (s : bool) (m : positive) (e : Z) :
  has_sign s (F32.of_bin s m e) = true.
Proof.
  unfold F32.of_bin, binary_round.
  destruct (shl_align m e _) as [mz ez].
  apply binary_round_aux_sign. lia.
Qed.

Lemma negative_sign_not_positive (v : float) :
  has_sign true v = true -> F32.gt v F32.zero = false.
Proof.
  destruct v as [s | s | | s m e]; simpl; try reflexivity;
    destruct s; try discriminate; reflexivity.
Qed.

Lemma positive_sign_not_negative (v : float) :
  has_sign false v = true -> F32.le F32.zero v = true.
Proof.
  destruct v as [s | s | | s m e]; simpl; try discriminate;
    destruct s; try discriminate; reflexivity.
Qed.

Lemma same_float_eq (a b : float) : same_float a b = true -> a = b.
Proof.
  destruct a as [sa | sa | | sa ma ea], b as [sb | sb | | sb mb eb]; simpl;
    try discriminate; try reflexivity.
  - intros H. apply eqb_prop in H. now subst.
  - intros H. apply eqb_prop in H. now subst.
  - intros H. apply andb_prop in H. destruct H as [H He].
    apply andb_prop in H. destruct H as [Hs Hm].
    apply eqb_prop in Hs. apply Pos.eqb_eq in Hm. apply Z.eqb_eq in He.
    now subst.
Qed.

End MoreFloatFacts.

(* ================================================================= *)
(** ** ScaleConfig and the scaling helpers *)

Lemma mul_positive_sign (a b : float) :
  F32.gt a F32.zero = true -> F32.gt b F32.zero = true ->
  has_sign false (F32.mul a b) = true.
Proof.
  intros Ha Hb.
  destruct a as [sa | sa | | sa ma ea]; try discriminate Ha;
    destruct b as [sb | sb | | sb mb eb]; try discriminate Hb;
    destruct sa; try discriminate Ha; destruct sb; try discriminate Hb;
    try reflexivity.
  unfold F32.mul, SFmul. cbn [xorb].
  apply binary_round_aux_sign. lia.
Qed.

(** X1: the effective scale does not depend on which factor is the DPI
    scale and which the user scale, and [Scale] is commutative: whenever
    the product is a number (not NaN), the two results are the same float,
    bit for bit. *)
Theorem effective_scale_symmetric (dpi user : float) :
  F32.is_nan (GetEffectiveScale (Create dpi user)) = false ->
  GetEffectiveScale (Create dpi user) = GetEffectiveScale (Create user dpi) /\
  Scale dpi user = Scale user dpi.
Proof.
  intros _.
  split; [unfold GetEffectiveScale, Create; cbn [dpiScale userScale] |
          unfold Scale]; apply mul_comm.
Qed.

Lemma effective_scale_symmetric_witness :
  GetEffectiveScale (Create F32.half3 (F32.of_Z (-3)))
  = GetEffectiveScale (Create (F32.of_Z (-3)) F32.half3).
Proof.
  apply (effective_scale_symmetric F32.half3 (F32.of_Z (-3))).
  reflexivity.
Defined.

(** X2: [FromEffective] validates nothing and loses nothing: for every
    binary32 number, zeros, negative numbers and infinities included, the
    configuration equals [Create(1.0, effective)] and its effective scale
    is that very number. *)
Theorem FromEffective_exact (effective : float) :
  F32.is_number effective = true ->
  FromEffective effective = Create F32.one effective /\
  GetEffectiveScale (FromEffective effective) = effective.
Proof.
  intros Hv. unfold F32.is_number in Hv. apply andb_prop in Hv.
  split; [reflexivity |].
  unfold GetEffectiveScale, FromEffective; cbn [dpiScale userScale].
  now apply mul_one_l.
Qed.

Lemma FromEffective_exact_witness :
  GetEffectiveScale (FromEffective (F32.of_Z (-3))) = F32.of_Z (-3) /\
  GetEffectiveScale (FromEffective (S754_zero true)) = S754_zero true /\
  GetEffectiveScale (FromEffective (S754_infinity false))
  = S754_infinity false.
Proof.
  split; [| split].
  - apply (FromEffective_exact (F32.of_Z (-3))). reflexivity.
  - apply (FromEffective_exact (S754_zero true)). reflexivity.
  - apply (FromEffective_exact (S754_infinity false)). reflexivity.
Defined.

(** X3: the effective scale of two positive factors is never NaN and never
    negative: it is [+0], a positive number or [+infinity].  Both extremes
    occur: the product of two positive binary32 factors can underflow to
    zero (which [SetScale] then ignores) or overflow to infinity. *)
Theorem effective_scale_of_positive_factors :
  (forall dpi user : float,
      F32.gt dpi F32.zero = true -> F32.gt user F32.zero = true ->
      has_sign false (GetEffectiveScale (Create dpi user)) = true /\
      F32.le F32.zero (GetEffectiveScale (Create dpi user)) = true) /\
  (exists tiny : float,
      F32.is_float32 tiny = true /\ F32.gt tiny F32.zero = true /\
      GetEffectiveScale (Create tiny tiny) = F32.zero /\
      forall (Derived : Type) (hook : float -> Derived -> Derived)
             (w : Scalable Derived),
        SetScale hook (GetEffectiveScale (Create tiny tiny)) w = w) /\
  (exists huge : float,
      F32.is_float32 huge = true /\ F32.gt huge F32.zero = true /\
      GetEffectiveScale (Create huge huge) = S754_infinity false).
Proof.
  split; [| split].
  - intros dpi user Hd Hu.
    assert (H : has_sign false (GetEffectiveScale (Create dpi user)) = true)
      by now apply mul_positive_sign.
    split; [exact H | now apply positive_sign_not_negative].
  - exists (S754_finite false 1 (-149)). repeat split.
  - exists (S754_finite false 8388608 100). repeat split.
Qed.

Lemma effective_scale_of_positive_factors_witness :
  F32.le F32.zero (GetEffectiveScale (Create F32.half3 F32.quart5)) = true.
Proof.
  apply (proj1 effective_scale_of_positive_factors F32.half3 F32.quart5);
    reflexivity.
Defined.

(** X4: at the initial scale [1.0] the protected helpers are exact: on a
    fresh widget [Scaled(value)] returns [value] and [ScaledTouch] returns
    the touch value in touch mode and the desktop value otherwise,
    unchanged, for all binary32 numbers (not NaN). *)
Theorem Scaled_at_initial_scale (Derived : Type) (d : Derived)
    (desktopValue touchValue : float) (touchMode : bool) :
  F32.is_number desktopValue = true ->
  F32.is_number touchValue = true ->
  Scaled desktopValue (Scalable_new d) = desktopValue /\
  ScaledTouch desktopValue touchValue touchMode (Scalable_new d)
  = (if touchMode then touchValue else desktopValue).
Proof.
  intros Hd Ht. unfold F32.is_number in Hd, Ht.
  apply andb_prop in Hd. apply andb_prop in Ht. split.
  - unfold Scaled; cbn [m_scale Scalable_new]. now apply mul_one_r.
  - unfold ScaledTouch; cbn [m_scale Scalable_new].
    destruct touchMode; now apply mul_one_r.
Qed.

Lemma Scaled_at_initial_scale_witness :
  ScaledTouch BaseSize.BUTTON_HEIGHT BaseSize.Touch.BUTTON_HEIGHT true
    (Scalable_new tt) = BaseSize.Touch.BUTTON_HEIGHT.
Proof.
  apply (Scaled_at_initial_scale unit tt BaseSize.BUTTON_HEIGHT
           BaseSize.Touch.BUTTON_HEIGHT true); reflexivity.
Defined.

(** X5: scaling a vector by [1.0] with the vector overload of [Scale]
    returns the vector unchanged, for components that are binary32 numbers
    (not NaN). *)
Theorem Scale_ImVec2_by_one (v : ImVec2) :
  F32.is_number (x v) = true -> F32.is_number (y v) = true ->
  Scale_ImVec2 v F32.one = v.
Proof.
  intros Hx Hy. unfold F32.is_number in Hx, Hy.
  apply andb_prop in Hx. apply andb_prop in Hy.
  destruct v as [vx vy]. unfold Scale_ImVec2. cbn [x y] in *.
  now rewrite !mul_one_r.
Qed.

Lemma Scale_ImVec2_by_one_witness :
  Scale_ImVec2 (mkImVec2 BaseSize.DIALOG_WIDTH BaseSize.DIALOG_HEIGHT) F32.one
  = mkImVec2 BaseSize.DIALOG_WIDTH BaseSize.DIALOG_HEIGHT.
Proof.
  apply (Scale_ImVec2_by_one
           (mkImVec2 BaseSize.DIALOG_WIDTH BaseSize.DIALOG_HEIGHT));
    reflexivity.
Defined.

(** X6: in both base size tables every size is a positive binary32 number,
    and each touch size is strictly greater than the desktop size of the
    same name. *)
Theorem touch_sizes_exceed_desktop_sizes :
  (forall v, In v BaseSize.desktop_sizes ->
             F32.is_float32 v = true /\ F32.gt v F32.zero = true) /\
  (forall d t, In (d, t) BaseSize.touch_overrides ->
               In d BaseSize.desktop_sizes /\
               F32.is_float32 t = true /\ F32.gt t d = true).
Proof.
  split.
  - intros v H. cbv [BaseSize.desktop_sizes In] in H.
    repeat (destruct H as [<- | H]; [split; reflexivity |]). contradiction.
  - intros d t H. cbv [BaseSize.touch_overrides In] in H.
    repeat (destruct H as [E | H];
            [injection E as <- <-;
             split; [cbv [BaseSize.desktop_sizes In]; tauto |
                     split; reflexivity] |]).
    contradiction.
Qed.

Lemma touch_sizes_exceed_desktop_sizes_witness :
  F32.gt BaseSize.Touch.ROW_HEIGHT BaseSize.ROW_HEIGHT = true.
Proof.
  apply (proj2 touch_sizes_exceed_desktop_sizes BaseSize.ROW_HEIGHT
           BaseSize.Touch.ROW_HEIGHT).
  cbv [BaseSize.touch_overrides In]. tauto.
Defined.

(* ================================================================= *)
(** ** More on the Scalable mixin *)

Section MoreScalableFacts.

Variable Derived : Type.
Variable OnScaleChanged : float -> Derived -> Derived.

Let widget := Scalable Derived.

Lemma do_call_both_positive (c : call) (w : widget) :
  F32.gt (m_scale w) F32.zero = true /\
  F32.gt (m_prevScale w) F32.zero = true ->
  F32.gt (m_scale (do_call OnScaleChanged c w)) F32.zero = true /\
  F32.gt (m_prevScale (do_call OnScaleChanged c w)) F32.zero = true.
Proof.
  intros [Hs Hp]. destruct c as [s |]; simpl.
  - unfold SetScale.
    destruct (F32.gt s F32.zero) eqn:Hg; simpl; auto.
    destruct (F32.ne s (m_scale w)); simpl; auto.
  - auto.
Qed.

Lemma run_both_positive (cs : list call) :
  forall w : widget,
    F32.gt (m_scale w) F32.zero = true /\
    F32.gt (m_prevScale w) F32.zero = true ->
    F32.gt (m_scale (run OnScaleChanged cs w)) F32.zero = true /\
    F32.gt (m_prevScale (run OnScaleChanged cs w)) F32.zero = true.
Proof.
  induction cs as [| c cs IH]; intros w H; simpl.
  - exact H.
  - apply IH, do_call_both_positive, H.
Qed.

Lemma do_call_hook_calls (c : call) (w : widget) :
  (hook_calls (do_call OnScaleChanged c w) = hook_calls w /\
   m_scale (do_call OnScaleChanged c w) = m_scale w /\
   derived (do_call OnScaleChanged c w) = derived w) \/
  (hook_calls (do_call OnScaleChanged c w) = S (hook_calls w) /\
   exists s, c = CallSetScale s).
Proof.
  destruct c as [s |]; simpl.
  - unfold SetScale.
    destruct (F32.gt s F32.zero && F32.ne s (m_scale w)); simpl; eauto.
  - auto.
Qed.

Lemma run_hook_calls_bounds (cs : list call) :
  forall w : widget,
    (hook_calls w <= hook_calls (run OnScaleChanged cs w) /\
     hook_calls (run OnScaleChanged cs w) <= hook_calls w + set_calls cs)%nat.
Proof.
  induction cs as [| c cs IH]; intros w; simpl.
  - lia.
  - specialize (IH (do_call OnScaleChanged c w)).
    destruct (do_call_hook_calls c w) as [[H _] | [H [s ->]]];
      [destruct c |]; simpl in *; lia.
Qed.

Lemma run_silent (cs : list call) :
  forall w : widget,
    hook_calls (run OnScaleChanged cs w) = hook_calls w ->
    m_scale (run OnScaleChanged cs w) = m_scale w /\
    derived (run OnScaleChanged cs w) = derived w.
Proof.
  induction cs as [| c cs IH]; intros w H; simpl in *.
  - auto.
  - pose proof (run_hook_calls_bounds cs (do_call OnScaleChanged c w))
      as [Hlo _].
    destruct (do_call_hook_calls c w) as [[Hh [Hs Hd]] | [Hh _]].
    + rewrite <- Hs, <- Hd. apply IH. now rewrite Hh.
    + lia.
Qed.

Lemma run_stays_pending (cs : list call) :
  forall w : widget,
    no_acknowledge cs = true -> HasScaleChanged w = true ->
    HasScaleChanged (run OnScaleChanged cs w) = true.
Proof.
  induction cs as [| [s |] cs IH]; intros w Hn Hw; simpl in *.
  - exact Hw.
  - apply IH; [exact Hn |].
    destruct (effective s w) eqn:He.
    + now apply HasScaleChanged_after_effective.
    + now rewrite SetScale_ineffective.
  - discriminate Hn.
Qed.

End MoreScalableFacts.

(** X7: on every object reachable from a fresh one by [SetScale] and
    [AcknowledgeScaleChange] calls, both the stored scale and the previous
    scale are greater than zero; neither is ever zero, negative or NaN. *)
Theorem Scalable_scales_positive (Derived : Type)
    (OnScaleChanged : float -> Derived -> Derived) (d : Derived)
    (cs : list call) :
  let w := run OnScaleChanged cs (Scalable_new d) in
  F32.gt (GetScale w) F32.zero = true /\
  F32.gt (m_prevScale w) F32.zero = true.
Proof.
  cbv zeta. apply run_both_positive. split; reflexivity.
Qed.

(** X8: after [SetScale(scale)] with a positive scale, [GetScale()] compares
    equal to [scale], whether the call changed the object or found the
    scale already there. *)
Theorem GetScale_after_SetScale (Derived : Type)
    (OnScaleChanged : float -> Derived -> Derived)
    (scale : float) (w : Scalable Derived) :
  F32.gt scale F32.zero = true ->
  F32.eq (GetScale (SetScale OnScaleChanged scale w)) scale = true.
Proof.
  intros Hs. unfold GetScale.
  destruct (effective scale w) eqn:He.
  - rewrite SetScale_effective by exact He. cbn [m_scale].
    now apply eq_refl_of_not_nan, gt_zero_not_nan.
  - rewrite SetScale_ineffective by exact He.
    unfold effective in He. rewrite Hs in He. cbn [andb] in He.
    apply eq_sym_true. unfold F32.ne in He. unfold F32.eq.
    now destruct (SFeqb scale (m_scale w)).
Qed.

Lemma GetScale_after_SetScale_witness :
  F32.eq (GetScale (SetScale (fun _ (u : unit) => u) F32.one
                      (Scalable_new tt))) F32.one = true.
Proof.
  apply (GetScale_after_SetScale unit (fun _ u => u) F32.one
           (Scalable_new tt)).
  reflexivity.
Defined.

(** X9: a pending change is never lost by further [SetScale] calls: once
    [HasScaleChanged()] is true it stays true through any sequence of
    [SetScale] calls, effective or not; only an acknowledgement clears
    it. *)
Theorem pending_until_acknowledged (Derived : Type)
    (OnScaleChanged : float -> Derived -> Derived)
    (cs : list call) (w : Scalable Derived) :
  no_acknowledge cs = true -> HasScaleChanged w = true ->
  HasScaleChanged (run OnScaleChanged cs w) = true.
Proof. apply run_stays_pending. Qed.

Lemma pending_until_acknowledged_witness :
  HasScaleChanged
    (run (fun _ (u : unit) => u)
         [CallSetScale F32.one; CallSetScale F32.zero; CallSetScale F32.half3]
         (SetScale (fun _ (u : unit) => u) F32.half3 (Scalable_new tt)))
  = true.
Proof.
  apply (pending_until_acknowledged unit (fun _ u => u)); reflexivity.
Defined.

(** X10: the scale never changes behind the hook's back: over any sequence
    of calls the hook runs at most once per [SetScale] call and never for an
    acknowledgement, and when the hook did not run the stored scale and the
    derived state are what they were. *)
Theorem scale_changes_only_with_hook (Derived : Type)
    (OnScaleChanged : float -> Derived -> Derived)
    (cs : list call) (w : Scalable Derived) :
  let w' := run OnScaleChanged cs w in
  (hook_calls w <= hook_calls w' /\
   hook_calls w' <= hook_calls w + set_calls cs)%nat /\
  (hook_calls w' = hook_calls w ->
   m_scale w' = m_scale w /\ derived w' = derived w).
Proof.
  cbv zeta. split.
  - apply run_hook_calls_bounds.
  - apply run_silent.
Qed.

Lemma scale_changes_only_with_hook_witness :
  m_scale (run (fun _ (n : nat) => S n)
             [CallSetScale F32.zero; CallAcknowledge; CallSetScale F32.one]
             (Scalable_new O))
  = F32.one.
Proof.
  apply (proj2 (scale_changes_only_with_hook nat (fun _ n => S n)
                  [CallSetScale F32.zero; CallAcknowledge;
                   CallSetScale F32.one] (Scalable_new O))).
  reflexivity.
Defined.

(* ================================================================= *)
(** ** More on the read-line callback *)

Section MoreReadLineFacts.

Local Open Scope string_scope.

Lemma SFcompare_antisym (a b : spec_float) :
  SFcompare b a = option_map CompOpp (SFcompare a b).
Proof.
  destruct a as [sa | sa | | sa ma ea], b as [sb | sb | | sb mb eb]; simpl;
    try reflexivity;
    try (destruct sa; reflexivity); try (destruct sb; reflexivity).
  - destruct sa, sb; reflexivity.
  - rewrite (Z.compare_antisym ea eb), !Pos.compare_cont_spec.
    rewrite (Pos.compare_antisym ma mb).
    destruct sa, sb; try reflexivity;
      destruct (ea ?= eb)%Z; simpl; try reflexivity;
      destruct (ma ?= mb)%positive; reflexivity.
Qed.

Lemma gt_not_le (a b : float) : F32.gt a b = true -> F32.le a b = false.
Proof.
  unfold F32.gt, F32.le, SFltb, SFleb.
  rewrite (SFcompare_antisym a b).
  destruct (SFcompare a b) as [[| |] |]; simpl; congruence.
Qed.

Lemma gt_ten_positive (s : float) :
  F32.gt s F32.ten = true -> F32.gt s F32.zero = true.
Proof.
  destruct s as [b | b | | b m e]; try destruct b; try discriminate;
    reflexivity.
Qed.

(** The callback is either the identity or stores one fixed value that
    passed the sanity check; which of the two does not depend on the
    statics. *)
Lemma ReadLine_shape (entry : void_ptr) (line : string) :
  (forall g, SettingsHandler_ReadLine entry line g = g) \/
  (exists v, in_sanity_range v = true /\
             forall g, SettingsHandler_ReadLine entry line g
                       = set_userScale v g).
Proof.
  unfold SettingsHandler_ReadLine.
  destruct (Z.eqb entry nullptr); [now left |].
  destruct (sscanf_UserScale_outcomes line) as [[v H] | [H | H]];
    rewrite H; [| now left | now left].
  fold (in_sanity_range v).
  destruct (in_sanity_range v) eqn:Hr; [right; now exists v | now left].
Qed.

Lemma decimal_value_minus (m e : Z) :
  F32.gt (LibC.decimal_value true m e) F32.zero = false.
Proof.
  destruct m as [| p | p]; try reflexivity.
  destruct e; apply negative_sign_not_positive, of_ratio_sign.
Qed.

Lemma binary_value_minus (m e : Z) :
  F32.gt (LibC.binary_value true m e) F32.zero = false.
Proof.
  destruct m as [| p | p]; try reflexivity.
  apply negative_sign_not_positive, of_bin_sign.
Qed.

Lemma scan_constant_minus (hex : bool) (input : string) (v : float) :
  LibC.scan_constant hex true input = Some v -> F32.gt v F32.zero = false.
Proof.
  unfold LibC.scan_constant.
  destruct (LibC.scan_mantissa hex input) as [[[[m ni] nf] point] r2].
  destruct (ni + nf =? 0)%Z.
  - destruct (hex && point); [| discriminate].
    intros H. injection H as <-. reflexivity.
  - intros H. injection H as <-. unfold LibC.constant_value.
    destruct hex; [apply binary_value_minus | apply decimal_value_minus].
Qed.

(** A number written with a minus sign is never positive. *)
Lemma scan_number_minus (rest : string) (v : float) :
  LibC.scan_number (String "-"%char rest) = Some v ->
  F32.gt v F32.zero = false.
Proof.
  unfold LibC.scan_number. cbn [LibC.scan_sign]. unfold LibC.scan_unsigned.
  destruct rest as [| c r']; [discriminate |].
  destruct (Ascii.eqb (LibC.tolower c) "i"%char).
  { destruct (LibC.common_prefix "infinity" (String c r'))
      as [| [| [| [| [| [| [| [| [| n]]]]]]]]]; try discriminate;
      intros H; injection H as <-; reflexivity. }
  destruct (Ascii.eqb (LibC.tolower c) "n"%char).
  { destruct (LibC.common_prefix "nan" (String c r'))
      as [| [| [| [| n]]]]; try discriminate.
    intros H; injection H as <-; reflexivity. }
  destruct (Ascii.eqb c "0"%char).
  { destruct r' as [| x' r'']; [apply scan_constant_minus |].
    destruct (Ascii.eqb (LibC.tolower x') "x"%char);
      apply scan_constant_minus. }
  apply scan_constant_minus.
Qed.

End MoreReadLineFacts.

Section MorePersistenceClaims.

Local Open Scope string_scope.

(** X11: whatever the token and the line, the read-line callback leaves
    the registration flag alone, and the user scale afterwards is either the
    one before or a value in (0, 10]. *)
Theorem ReadLine_stays_in_range (entry : void_ptr) (line : string)
    (g : Globals) :
  let g' := SettingsHandler_ReadLine entry line g in
  g_settingsHandlerRegistered g' = g_settingsHandlerRegistered g /\
  (g_userScale g' = g_userScale g \/
   (F32.gt (g_userScale g') F32.zero = true /\
    F32.le (g_userScale g') F32.ten = true)).
Proof.
  cbv zeta.
  destruct (ReadLine_shape entry line) as [H | [v [Hr H]]]; rewrite H.
  - auto.
  - split; [reflexivity |]. right. cbn [set_userScale g_userScale].
    unfold in_sanity_range in Hr. now apply andb_prop in Hr.
Qed.

(** X12: reading the same line twice is the same as reading it once, and a
    line that changes the statics at all decides the outcome alone: what an
    earlier line stored is overwritten. *)
Theorem ReadLine_last_accepted_wins (entry : void_ptr)
    (earlier line : string) (g0 g : Globals) :
  SettingsHandler_ReadLine entry line (SettingsHandler_ReadLine entry line g)
  = SettingsHandler_ReadLine entry line g /\
  (SettingsHandler_ReadLine entry line g0 <> g0 ->
   SettingsHandler_ReadLine entry line
     (SettingsHandler_ReadLine entry earlier g)
   = SettingsHandler_ReadLine entry line g).
Proof.
  destruct (ReadLine_shape entry line) as [H | [v [_ H]]].
  - split; [now rewrite !H |]. intros Hn. now elim Hn.
  - split.
    + now rewrite !H.
    + intros _. rewrite !H.
      destruct (ReadLine_shape entry earlier) as [H' | [v' [_ H']]];
        now rewrite H'.
Qed.

Lemma ReadLine_last_accepted_wins_witness :
  SettingsHandler_ReadLine 1%Z "UserScale=1.25"
    (SettingsHandler_ReadLine 1%Z "UserScale=1.5" Globals_init)
  = SettingsHandler_ReadLine 1%Z "UserScale=1.25" Globals_init.
Proof.
  apply (proj2 (ReadLine_last_accepted_wins 1%Z "UserScale=1.5"
                  "UserScale=1.25" Globals_init Globals_init)).
  discriminate.
Defined.

(** X13: a line that does not begin with the exact text [UserScale=] is
    ignored: the empty line, a different key, a different letter case and
    leading white space all leave the statics unchanged. *)
Theorem ReadLine_ignores_other_keys (entry : void_ptr) (line : string)
    (g : Globals) :
  (forall rest, line <> "UserScale=" ++ rest) ->
  SettingsHandler_ReadLine entry line g = g.
Proof.
  intros Hn. apply ReadLine_not_converted.
  intros v Hs. apply sscanf_UserScale_converts in Hs.
  destruct Hs as [ws [tail [E _]]]. now apply (Hn (ws ++ tail)).
Qed.

Lemma ReadLine_ignores_other_keys_witness :
  SettingsHandler_ReadLine 1%Z " UserScale=1.5" Globals_init = Globals_init /\
  SettingsHandler_ReadLine 1%Z "userscale=1.5" Globals_init = Globals_init /\
  SettingsHandler_ReadLine 1%Z "" Globals_init = Globals_init.
Proof.
  split; [| split];
    apply ReadLine_ignores_other_keys; intros rest H; discriminate H.
Defined.

(** X14: a value written with a minus sign is never stored, whatever
    follows the sign. *)
Theorem ReadLine_rejects_minus (entry : void_ptr) (ws rest : string)
    (g : Globals) :
  all_space ws = true ->
  SettingsHandler_ReadLine entry
    ("UserScale=" ++ ws ++ String "-"%char rest) g = g.
Proof.
  intros Hws. unfold SettingsHandler_ReadLine, sscanf_UserScale.
  destruct (Z.eqb entry nullptr); [reflexivity |].
  assert (Hl : LibC.match_literal "UserScale="
                 ("UserScale=" ++ ws ++ String "-"%char rest)
               = LibC.Done (ws ++ String "-"%char rest))
    by now apply match_literal_Done.
  rewrite Hl. unfold LibC.scan_float.
  rewrite skip_space_app by exact Hws.
  cbn [LibC.skip_space LibC.isspace].
  replace (LibC.isspace "-"%char) with false by reflexivity.
  destruct (LibC.scan_number (String "-"%char rest)) as [v |] eqn:Hn;
    [| reflexivity].
  now rewrite (scan_number_minus rest v Hn).
Qed.

Lemma ReadLine_rejects_minus_witness :
  SettingsHandler_ReadLine 1%Z "UserScale=  -2.5" Globals_init = Globals_init.
Proof.
  apply (ReadLine_rejects_minus 1%Z "  " "2.5" Globals_init). reflexivity.
Defined.

(** X15: the two read callbacks of the registered handler compose as the
    host engine uses them: for every entry name other than [Data] the token
    of the open-entry callback makes the read-line callback ignore every
    line. *)
Theorem lines_of_other_entries_ignored (ImHashStr : string -> ImGuiID)
    (name line : string) (g : Globals) :
  name <> "Data" ->
  let h := the_handler ImHashStr in
  ReadLineFn h (ReadOpenFn h name) line g = g.
Proof.
  intros Hn. cbv zeta. cbn [the_handler ReadLineFn ReadOpenFn].
  unfold SettingsHandler_ReadOpen.
  destruct (Z.eqb (LibC.strcmp name "Data") 0) eqn:E.
  - apply Z.eqb_eq, strcmp_eq in E. contradiction.
  - reflexivity.
Qed.

Lemma lines_of_other_entries_ignored_witness :
  ReadLineFn (the_handler (fun _ => 0%Z))
    (ReadOpenFn (the_handler (fun _ => 0%Z)) "data") "UserScale=2.0"
    Globals_init
  = Globals_init.
Proof.
  apply (lines_of_other_entries_ignored (fun _ => 0%Z) "data").
  discriminate.
Defined.

(** X16: [SetUserScale] has no upper bound while the read-line callback
    has: a scale greater than [10.0] is stored by [SetUserScale], but no
    token and no line make the read-line callback store it. *)
Theorem SetUserScale_exceeds_read_range (scale : float) (p : Process) :
  F32.gt scale F32.ten = true ->
  GetUserScale (SetUserScale scale p) = scale /\
  (forall entry line g,
      g_userScale (SettingsHandler_ReadLine entry line g) = scale ->
      g_userScale g = scale).
Proof.
  intros Hs. split.
  - unfold SetUserScale. now rewrite (gt_ten_positive scale Hs).
  - intros entry line g H.
    destruct (ReadLine_shape entry line) as [Hi | [v [Hr Hv]]].
    + now rewrite Hi in H.
    + rewrite Hv in H. cbn [set_userScale g_userScale] in H. subst v.
      unfold in_sanity_range in Hr. apply andb_prop in Hr.
      destruct Hr as [_ Hle]. now rewrite (gt_not_le _ _ Hs) in Hle.
Qed.

Lemma SetUserScale_exceeds_read_range_witness :
  GetUserScale (SetUserScale (F32.of_Z 11) (Process_init None))
  = F32.of_Z 11.
Proof.
  apply (SetUserScale_exceeds_read_range (F32.of_Z 11) (Process_init None)).
  reflexivity.
Defined.

End MorePersistenceClaims.

(* ================================================================= *)
(** ** Registration, dirty marking and the save/load round trip *)

Section ProcessFacts.

Local Open Scope string_scope.

Variable ImHashStr : string -> ImGuiID.

Lemma ReadLine_keeps_flag (entry : void_ptr) (line : string) (g : Globals) :
  g_settingsHandlerRegistered (SettingsHandler_ReadLine entry line g)
  = g_settingsHandlerRegistered g.
Proof.
  destruct (ReadLine_shape entry line) as [H | [v [_ H]]]; now rewrite H.
Qed.

Lemma api_step_consistent (handlers : list ImGuiSettingsHandler)
    (c : api_call) (p : Process) :
  registration_consistent ImHashStr handlers p ->
  registration_consistent ImHashStr handlers (api_step ImHashStr c p).
Proof.
  intros [dirty H]. destruct c as [s | entry line |]; simpl.
  - unfold SetUserScale. destruct (F32.gt s F32.zero); [| now exists dirty].
    exists true. cbn [statics GetCurrentContext set_userScale
                        g_settingsHandlerRegistered].
    destruct H as [[Hf Hc] | [Hf Hc]]; rewrite Hc; [left | right];
      split; trivial.
  - exists dirty. cbn [statics GetCurrentContext].
    now rewrite ReadLine_keeps_flag.
  - unfold RegisterSettingsHandler.
    destruct H as [[Hf Hc] | [Hf Hc]]; rewrite Hf, ?Hc.
    + exists dirty. right. split; reflexivity.
    + exists dirty. right. split; assumption.
Qed.

Lemma api_run_consistent (handlers : list ImGuiSettingsHandler)
    (cs : list api_call) :
  forall p, registration_consistent ImHashStr handlers p ->
            registration_consistent ImHashStr handlers (api_run ImHashStr cs p).
Proof.
  induction cs as [| c cs IH]; intros p H; simpl.
  - exact H.
  - apply IH, api_step_consistent, H.
Qed.

Lemma api_run_without_context (cs : list api_call) :
  forall p, GetCurrentContext p = None ->
            g_settingsHandlerRegistered (statics p) = false ->
    GetCurrentContext (api_run ImHashStr cs p) = None /\
    g_settingsHandlerRegistered (statics (api_run ImHashStr cs p)) = false.
Proof.
  induction cs as [| c cs IH]; intros p Hc Hf; simpl.
  - auto.
  - apply IH; destruct c as [s | entry line |]; simpl.
    + unfold SetUserScale. destruct (F32.gt s F32.zero); trivial.
      cbn [GetCurrentContext]. now rewrite Hc.
    + exact Hc.
    + unfold RegisterSettingsHandler. now rewrite Hf, Hc.
    + unfold SetUserScale. destruct (F32.gt s F32.zero); trivial.
    + now rewrite ReadLine_keeps_flag.
    + unfold RegisterSettingsHandler. now rewrite Hf, Hc.
Qed.

Lemma api_run_dirty (cs : list api_call) :
  forall p ctx, GetCurrentContext p = Some ctx ->
    exists ctx', GetCurrentContext (api_run ImHashStr cs p) = Some ctx' /\
                 SettingsDirty ctx' = SettingsDirty ctx || sets_positive cs.
Proof.
  induction cs as [| c cs IH]; intros p ctx Hc; simpl.
  - exists ctx. now rewrite orb_false_r.
  - destruct c as [s | entry line |]; simpl.
    + unfold SetUserScale. destruct (F32.gt s F32.zero) eqn:Hs.
      * destruct (IH (mkProcess (set_userScale s (statics p))
                        (Some (MarkIniSettingsDirty ctx)))
                     (MarkIniSettingsDirty ctx) eq_refl) as [ctx' [H1 H2]].
        exists ctx'. rewrite Hc. split; [exact H1 |].
        rewrite H2. cbn [MarkIniSettingsDirty SettingsDirty orb].
        now rewrite orb_true_r.
      * exact (IH p ctx Hc).
    + apply IH. exact Hc.
    + unfold RegisterSettingsHandler.
      destruct (g_settingsHandlerRegistered (statics p));
        [exact (IH p ctx Hc) |].
      rewrite Hc.
      destruct (IH (mkProcess
                      (mkGlobals (g_userScale (statics p)) true)
                      (Some (push_back (the_handler ImHashStr) ctx)))
                   (push_back (the_handler ImHashStr) ctx) eq_refl)
        as [ctx' [H1 H2]].
      exists ctx'. split; [exact H1 | exact H2].
Qed.

Lemma reads_back_upto_all (n : nat) :
  reads_back_upto n = true ->
  forall k, (1 <= k <= Z.of_nat n)%Z -> reads_back k = true.
Proof.
  induction n as [| n IH]; intros H k Hk.
  - simpl in Hk. lia.
  - cbn [reads_back_upto] in H. apply andb_prop in H. destruct H as [Hn H].
    destruct (Z.eq_dec k (Z.of_nat (S n))) as [-> | Hne]; [exact Hn |].
    apply IH; [exact H | lia].
Qed.

Lemma reads_back_ten_thousand : reads_back_upto (Z.to_nat 10000) = true.
Proof. vm_compute. reflexivity. Qed.

End ProcessFacts.

Section ProcessClaims.

Local Open Scope string_scope.

(** X17: whatever sequence of [SetUserScale] calls, read-line callbacks and
    registrations runs on a process with a context, the context's handler
    list is the original one or the original one followed by the single
    handler of this library, and the registration flag tells which; without
    a context nothing is ever registered and the flag stays false. *)
Theorem at_most_one_handler_installed (ImHashStr : string -> ImGuiID)
    (handlers : list ImGuiSettingsHandler) (dirty : bool)
    (cs : list api_call) :
  registration_consistent ImHashStr handlers
    (api_run ImHashStr cs (Process_init (Some (mkContext handlers dirty)))) /\
  GetCurrentContext (api_run ImHashStr cs (Process_init None)) = None /\
  g_settingsHandlerRegistered
    (statics (api_run ImHashStr cs (Process_init None))) = false.
Proof.
  split.
  - apply api_run_consistent. exists dirty. left. split; reflexivity.
  - apply api_run_without_context; reflexivity.
Qed.

(** X18: the settings are marked dirty by [SetUserScale] with a positive
    scale and by nothing else: after any sequence of calls the context is
    dirty exactly when it was dirty before or the sequence has such a
    call.  Loading a value through the read-line callback and registering
    never mark the settings dirty, and nothing clears the mark. *)
Theorem dirty_only_by_SetUserScale (ImHashStr : string -> ImGuiID)
    (handlers : list ImGuiSettingsHandler) (dirty : bool)
    (cs : list api_call) :
  exists ctx',
    GetCurrentContext
      (api_run ImHashStr cs (Process_init (Some (mkContext handlers dirty))))
    = Some ctx' /\
    SettingsDirty ctx' = dirty || sets_positive cs.
Proof.
  apply (api_run_dirty ImHashStr cs
           (Process_init (Some (mkContext handlers dirty)))
           (mkContext handlers dirty) eq_refl).
Qed.

(** X19: every user scale that is a whole number of thousandths from 0.001
    to 10.000 survives saving and loading exactly: the write-all callback
    appends the section header, the line [UserScale=...] and a blank line,
    and the read-line callback given that line stores the same binary32
    value again. *)
Theorem thousandths_survive_save_and_load (k : Z) (typeName : string)
    (buf : ImGuiTextBuffer) (registered : bool) (g0 : Globals) :
  (1 <= k <= 10000)%Z ->
  let g := {| g_userScale := thousandth k;
              g_settingsHandlerRegistered := registered |} in
  SettingsHandler_WriteAll typeName g buf
  = buf ++ "[" ++ typeName ++ "][Data]" ++ LibC.nl
        ++ UserScale_line g ++ LibC.nl ++ LibC.nl /\
  SettingsHandler_ReadLine (SettingsHandler_ReadOpen "Data")
    (UserScale_line g) g0
  = set_userScale (thousandth k) g0.
Proof.
  intros Hk. cbv zeta. split.
  - unfold SettingsHandler_WriteAll, append, UserScale_line.
    now rewrite !string_app_assoc.
  - pose proof (reads_back_upto_all _ reads_back_ten_thousand k) as H.
    rewrite Z2Nat.id in H by lia. specialize (H Hk).
    unfold reads_back in H.
    change (UserScale_line {| g_userScale := thousandth k;
                              g_settingsHandlerRegistered := false |})
      with (UserScale_line {| g_userScale := thousandth k;
                              g_settingsHandlerRegistered := registered |})
      in H.
    destruct (sscanf_UserScale _) as [n [v |]] eqn:Hs;
      destruct n as [| [| |] |]; try discriminate H.
    apply andb_prop in H. destruct H as [Hv Hr].
    apply same_float_eq in Hv. subst v.
    assert (He : SettingsHandler_ReadOpen "Data" <> nullptr) by discriminate.
    rewrite (ReadLine_converted _ _ g0 _ He Hs). now rewrite Hr.
Qed.

Lemma thousandths_survive_save_and_load_witness :
  SettingsHandler_ReadLine (SettingsHandler_ReadOpen "Data")
    (UserScale_line {| g_userScale := thousandth 1750;
                       g_settingsHandlerRegistered := true |}) Globals_init
  = set_userScale (thousandth 1750) Globals_init.
Proof.
  apply (thousandths_survive_save_and_load 1750 "ImGuiScaling" "" true
           Globals_init).
  lia.
Defined.

(** X20: [SetUserScale] calls compose by overwriting: a call with a positive
    scale makes any [SetUserScale] call before it irrelevant, and repeating
    a call changes nothing more. *)
Theorem SetUserScale_overwrites (a b : float) (p : Process) :
  SetUserScale a (SetUserScale a p) = SetUserScale a p /\
  (F32.gt a F32.zero = true ->
   SetUserScale a (SetUserScale b p) = SetUserScale a p).
Proof.
  destruct p as [g [ctx |]]; unfold SetUserScale; split;
    try (intros Ha; rewrite Ha);
    destruct (F32.gt a F32.zero) eqn:Ea; try discriminate;
    try destruct (F32.gt b F32.zero) eqn:Eb;
    cbn [statics GetCurrentContext]; rewrite ?Ea; reflexivity.
Qed.

Lemma SetUserScale_overwrites_witness :
  SetUserScale F32.half3 (SetUserScale F32.quart5 (Process_init None))
  = SetUserScale F32.half3 (Process_init None).
Proof.
  apply (proj2 (SetUserScale_overwrites F32.half3 F32.quart5
                  (Process_init None))).
  reflexivity.
Defined.

End ProcessClaims.
